(** * pgtype.UUID: a shallow embedding of [pgtype/uuid.go]

    The Go type [UUID] is a nullable 16-byte container that converts
    between an in-memory value, the text and binary wire forms, and a
    JSON literal.  The functions below follow [pgtype/uuid.go] line by
    line.  Conventions of the embedding:

    - a Go [byte] is a [Byte.byte];
    - a Go [string] is a [list byte] (Go strings are immutable byte
      sequences, [len] counts bytes);
    - a Go [[]byte] is an [option (list byte)]: [None] is the nil slice,
      [Some []] the empty non-nil slice;
    - a Go [[16]byte] is a [list byte]; the well-formed ones have
      length 16 (the Go type admits no other);
    - a Go [error] result is an [option error], [None] being [nil];
    - a method with a pointer receiver returns the receiver's new state
      next to its Go result;
    - the two recursive methods ([Set] and [AssignTo]) take a recursion
      budget and return [None] when the call does not return: the
      budget is exhausted, which is how unbounded recursion of the Go
      code shows up in the model, or, in [Set], the comparison of two
      interface values panics. *)

From Stdlib Require Import List Arith Lia NArith ZArith Strings.Byte Strings.String.
From Stdlib Require Import Init.Decimal.
From stdpp Require Import base option list gmap.
Import ListNotations.

Local Open Scope nat_scope.

(** ** Go values *)

Abbreviation gostring := (list byte).
Abbreviation byteslice := (option (list byte)).

(** A string literal of the Go source, as its bytes. *)
Definition str (s : string) : gostring := list_byte_of_string s.
Arguments str s%_string.

(** [len(s)] for a slice: the nil slice has length 0. *)
Definition len (s : byteslice) : nat :=
  match s with
  | None => 0
  | Some l => length l
  end.

(** [s[lo:hi]] on a sequence whose length is at least [hi]. *)
Definition slice {A : Type} (lo hi : nat) (l : list A) : list A :=
  firstn (hi - lo) (skipn lo l).

(** The builtin [copy(dst, src)]: overwrites the first
    [min (len dst) (len src)] elements of [dst]. *)
Definition copy {A : Type} (dst src : list A) : list A :=
  firstn (length dst) src ++ skipn (length src) dst.

(** The builtin [append(buf, xs...)]: appending nothing to the nil slice
    leaves it nil. *)
Definition append (buf : byteslice) (xs : list byte) : byteslice :=
  match buf, xs with
  | None, [] => None
  | None, _ => Some xs
  | Some b, _ => Some (b ++ xs)
  end.

(** The zero value of [[16]byte]. *)
Definition zero16 : list byte := repeat x00 16.

(** Go errors.  [Errorf msg] is the error built by [fmt.Errorf], holding
    its formatted message; [InvalidByteError] and [ErrLength] are the two
    errors of [encoding/hex]; [ForeignError] stands for an error produced
    by a collaborator outside this file (a decoder capability object, the
    framework's null-assignment helper). *)
Inductive error : Type :=
| Errorf (msg : gostring)
| InvalidByteError (b : byte)
| ErrLength
| ForeignError (code : nat).

(** ** The pieces of the Go standard library that [uuid.go] calls *)

Module strconv.

(** Decimal digits of a [Decimal.uint], most significant first. *)
Fixpoint digits (u : Decimal.uint) : gostring :=
  match u with
  | Nil => []
  | D0 u => "0"%byte :: digits u
  | D1 u => "1"%byte :: digits u
  | D2 u => "2"%byte :: digits u
  | D3 u => "3"%byte :: digits u
  | D4 u => "4"%byte :: digits u
  | D5 u => "5"%byte :: digits u
  | D6 u => "6"%byte :: digits u
  | D7 u => "7"%byte :: digits u
  | D8 u => "8"%byte :: digits u
  | D9 u => "9"%byte :: digits u
  end.

(** [strconv.Itoa] on a non-negative [int]; the verbs [%d] and [%v] of
    [fmt] print an [int] the same way. *)
Definition Itoa (n : nat) : gostring := digits (Nat.to_uint n).

End strconv.

Module fmt.

(** [fmt]'s digit table for lower-case hexadecimal. *)
Definition ldigits : gostring := str "0123456789abcdefx".

Definition hexdigit (n : N) : byte := nth (N.to_nat n) ldigits x00.

(** The verb [%x] on a byte slice: two lower-case digits per byte, high
    nibble first, nothing between the bytes. *)
Definition Sprintf_x (s : list byte) : gostring :=
  flat_map (fun b => [hexdigit (N.shiftr (Byte.to_N b) 4);
                      hexdigit (N.land (Byte.to_N b) 15)]) s.

End fmt.

Module hex.

(** A byte from a number, with Go's wrap-around modulo 256. *)
Definition byte_of_N (n : N) : byte :=
  match Byte.of_N (n mod 256) with
  | Some b => b
  | None => x00
  end.

(** [fromHexChar]: the value of a hexadecimal digit, either case. *)
Definition fromHexChar (c : byte) : option N :=
  let n := Byte.to_N c in
  if (48 <=? n)%N && (n <=? 57)%N then Some (n - 48)%N
  else if (97 <=? n)%N && (n <=? 102)%N then Some (n - 97 + 10)%N
  else if (65 <=? n)%N && (n <=? 70)%N then Some (n - 65 + 10)%N
  else None.

(** [hex.Decode]: pairs of digits to bytes.  It returns the bytes decoded
    before the first fault together with the fault: [InvalidByteError c]
    at the first byte [c] that is no digit, [ErrLength] when a single
    valid digit is left over. *)
Fixpoint Decode (src : list byte) : list byte * option error :=
  match src with
  | [] => ([], None)
  | [p] =>
      match fromHexChar p with
      | None => ([], Some (InvalidByteError p))
      | Some _ => ([], Some ErrLength)
      end
  | p :: q :: rest =>
      match fromHexChar p with
      | None => ([], Some (InvalidByteError p))
      | Some a =>
          match fromHexChar q with
          | None => ([], Some (InvalidByteError q))
          | Some b =>
              let '(out, err) := Decode rest in
              (byte_of_N (N.lor (N.shiftl a 4) b) :: out, err)
          end
      end
  end.

Definition DecodeString (s : gostring) : list byte * option error := Decode s.

End hex.

Module bytes.

(** [bytes.Compare]: lexicographic comparison, -1, 0 or 1; a nil slice
    compares as the empty one. *)
Fixpoint compare (a b : list byte) : Z :=
  match a, b with
  | [], [] => 0%Z
  | [], _ :: _ => (-1)%Z
  | _ :: _, [] => 1%Z
  | x :: a', y :: b' =>
      if (Byte.to_N x <? Byte.to_N y)%N then (-1)%Z
      else if (Byte.to_N y <? Byte.to_N x)%N then 1%Z
      else compare a' b'
  end.

Definition Compare (a b : byteslice) : Z :=
  compare (default [] a) (default [] b).

End bytes.

(** ** [uuid.go] *)

(** The re-slicing of the 36-character case of [parseUUID]:
    [src[0:8] + src[9:13] + src[14:18] + src[19:23] + src[24:]]. *)
Definition dropDashes (src : gostring) : gostring :=
  slice 0 8 src ++ slice 9 13 src ++ slice 14 18 src ++ slice 19 23 src
    ++ skipn 24 src.

(** [parseUUID] converts a string UUID in standard form to a byte array. *)
Definition parseUUID (src : gostring) : list byte * option error :=
  let dst := zero16 in
  match (if length src =? 36 then inr (dropDashes src)
         else if length src =? 32 then inr src
         else inl (dst, Some (Errorf (str "cannot parse UUID " ++ src))))
  with
  | inl ret => ret
  | inr src =>
      let '(buf, err) := hex.DecodeString src in
      match err with
      | Some e => (dst, Some e)
      | None => (copy dst buf, None)
      end
  end.

(** [encodeUUID] converts a uuid byte array to UUID standard string form. *)
Definition encodeUUID (src : list byte) : gostring :=
  fmt.Sprintf_x (slice 0 4 src) ++ str "-" ++
  fmt.Sprintf_x (slice 4 6 src) ++ str "-" ++
  fmt.Sprintf_x (slice 6 8 src) ++ str "-" ++
  fmt.Sprintf_x (slice 8 10 src) ++ str "-" ++
  fmt.Sprintf_x (slice 10 16 src).

(** *** The container *)

(** The two hooks are function values in Go; here each is named by a
    number and the surrounding program (a [Framework], below) says what
    the function of that name does. *)
Record UUID : Type := mkUUID {
  Bytes : list byte;
  Valid : bool;
  UUIDDecoderWrapper : option nat;
  Getter : option nat
}.

(** The dynamic values [Set] is given as [interface{}].  The first five
    shapes are the ones [Set] switches on; every other dynamic value is a
    [VObj], named by its identity: where [==] on two of them does not
    panic, it holds exactly when they carry the same name. *)
Inductive value : Type :=
| VNil
| VArray16 (a : list byte)
| VBytes (s : byteslice)
| VString (s : gostring)
| VStringPtr (p : option gostring)
| VObj (id : nat).

(** What a destination pointer of [AssignTo] points at. *)
Inductive cell : Type :=
| CArray (a : list byte)
| CSlice (s : byteslice)
| CString (s : gostring).

Abbreviation heap := (gmap nat cell).

(** The destinations [AssignTo] is given as [interface{}]: a non-nil
    pointer to one of the three shapes it switches on, or any other
    dynamic value. *)
Inductive dest : Type :=
| DArrayPtr (v : nat)
| DSlicePtr (v : nat)
| DStringPtr (v : nat)
| DObj (id : nat).

(** Everything [uuid.go] calls that is defined elsewhere: methods of
    foreign objects, the bodies of the hooks, and the helpers of
    [pgtype/convert.go].  Calls are repeatable (the same object answers
    the same way each time), and a callee does not write to the
    container it is shown; a decoder and the null-assignment helper may
    write to the heap of destinations. *)
Record Framework : Type := mkFramework {
  (** [Some v] when the object's dynamic type has a method
      [Get() interface{}] and the call returns [v]. *)
  methodGet : nat -> option value;
  (** [true] when comparing the two objects with [==] or [!=] panics:
      they have the same dynamic type and that type is not comparable
      (a struct with a slice, map or function field, say). *)
  comparePanics : nat -> nat -> bool;
  (** [underlyingUUIDType(src)], with [ok] as [Some]. *)
  underlyingUUIDType : nat -> option value;
  (** The verb [%v] on an object. *)
  Sprint : nat -> gostring;
  (** The body of the [Getter] hook of a given name. *)
  callGetter : nat -> UUID -> value;
  (** [Some d] when the object implements [UUIDDecoder]. *)
  asDecoder : nat -> option nat;
  (** The body of the [UUIDDecoderWrapper] hook of a given name; [None]
      is a nil [UUIDDecoder]. *)
  callWrapper : nat -> dest -> option nat;
  (** [d.DecodeUUID(src)]. *)
  DecodeUUID : nat -> UUID -> heap -> heap * option error;
  (** [NullAssignTo(dst)]. *)
  NullAssignTo : dest -> heap -> heap * option error;
  (** Modelled from the spec: [GetAssignToDstType] is not in this file;
      the spec describes a resolver that, given a destination,
      optionally returns a more specific destination to retry against. *)
  GetAssignToDstType : dest -> option dest
}.

Definition NewTypeValue (n : UUID) : UUID :=
  {| Bytes := zero16; Valid := false;
     UUIDDecoderWrapper := UUIDDecoderWrapper n; Getter := Getter n |}.

Definition TypeName (n : UUID) : gostring := str "uuid".

Definition setNil (dst : UUID) : UUID :=
  {| Bytes := zero16; Valid := false;
     UUIDDecoderWrapper := UUIDDecoderWrapper dst; Getter := Getter dst |}.

Definition setByteArray (dst : UUID) (value : list byte) : UUID :=
  {| Bytes := value; Valid := true;
     UUIDDecoderWrapper := UUIDDecoderWrapper dst; Getter := Getter dst |}.

Definition setByteSlice (dst : UUID) (value : byteslice) : UUID * option error :=
  match value with
  | Some value =>
      if negb (length value =? 16) then
        (dst, Some (Errorf (str "[]byte must be 16 bytes to convert to UUID: "
                              ++ strconv.Itoa (length value))))
      else
        ({| Bytes := copy (Bytes dst) value; Valid := true;
            UUIDDecoderWrapper := UUIDDecoderWrapper dst; Getter := Getter dst |},
         None)
  | None => (setNil dst, None)
  end.

Definition setString (dst : UUID) (value : gostring) : UUID * option error :=
  let '(uuid, err) := parseUUID value in
  match err with
  | Some e => (dst, Some e)
  | None => (setByteArray dst uuid, None)
  end.

(** [src.(interface{ Get() interface{} })] followed by the call: only an
    object can have methods. *)
Definition callGet (fw : Framework) (src : value) : option value :=
  match src with
  | VObj id => methodGet fw id
  | _ => None
  end.

Global Instance byte_eq_dec : EqDecision byte := Byte.byte_eq_dec.
Global Instance value_eq_dec : EqDecision value.
Proof. solve_decision. Defined.

(** [value2 != value] on two interface values, [None] when the
    comparison panics.  The right operand is the source, which has a
    [Get] method and so is an object.  A left operand of another shape
    has another dynamic type: the values differ and nothing panics. *)
Definition notEqual (fw : Framework) (value2 value : value) : option bool :=
  match value2, value with
  | VObj id2, VObj id =>
      if comparePanics fw id2 id then None
      else Some (if decide (id2 = id) then false else true)
  | _, _ => Some (if decide (value2 = value) then false else true)
  end.

(** [Set].  The result is [None] when the call does not return: the
    recursion budget [fuel] is used up before the Go code would return,
    or the comparison [value2 != value] panics. *)
Fixpoint Set_ (fw : Framework) (fuel : nat) (dst : UUID) (src : value)
  : option (UUID * option error) :=
  match fuel with
  | O => None
  | S fuel =>
      match src with
      | VNil => Some (setNil dst, None)
      | _ =>
          match (match callGet fw src with
                 | Some value2 =>
                     match notEqual fw value2 src with
                     | None => None
                     | Some true => Some (Some value2)
                     | Some false => Some None
                     end
                 | None => Some None
                 end)
          with
          | None => None
          | Some (Some value2) => Set_ fw fuel dst value2
          | Some None =>
              match src with
              | VArray16 value => Some (setByteArray dst value, None)
              | VBytes value => Some (setByteSlice dst value)
              | VString value => Some (setString dst value)
              | VStringPtr None => Some (setNil dst, None)
              | VStringPtr (Some value) => Some (setString dst value)
              | VNil =>
                  (* the switch's default on a nil interface; not reached,
                     nil has returned above *)
                  Some (dst, Some (Errorf (str "cannot convert <nil> to UUID")))
              | VObj id =>
                  match underlyingUUIDType fw id with
                  | Some originalSrc => Set_ fw fuel dst originalSrc
                  | None =>
                      Some (dst, Some (Errorf (str "cannot convert " ++ Sprint fw id
                                                 ++ str " to UUID")))
                  end
              end
          end
      end
  end.

Definition Get (fw : Framework) (dst : UUID) : value :=
  match Getter dst with
  | Some g => callGetter fw g dst
  | None => if negb (Valid dst) then VNil else VArray16 (Bytes dst)
  end.

(** The first lines of [AssignTo]: the decoder capability of the
    destination itself ([dst.(UUIDDecoder)], which only an object can
    have), else the one the [UUIDDecoderWrapper] hook offers, if any. *)
Definition resolveDecoder (fw : Framework) (src : UUID) (dst : dest) : option nat :=
  match (match dst with
         | DObj id => asDecoder fw id
         | _ => None
         end)
  with
  | Some d => Some d
  | None =>
      match UUIDDecoderWrapper src with
      | Some w => callWrapper fw w dst
      | None => None
      end
  end.

(** [AssignTo].  The state is the heap the destination pointers point
    into; [None] when the recursion budget is used up. *)
Fixpoint AssignTo (fw : Framework) (fuel : nat) (src : UUID) (dst : dest) (h : heap)
  : option (heap * option error) :=
  match fuel with
  | O => None
  | S fuel =>
      match resolveDecoder fw src dst with
      | Some d => Some (DecodeUUID fw d src h)
      | None =>
          if negb (Valid src) then Some (NullAssignTo fw dst h)
          else
            match dst with
            | DArrayPtr v => Some (<[v := CArray (Bytes src)]> h, None)
            | DSlicePtr v =>
                Some (<[v := CSlice (Some (copy (repeat x00 16) (Bytes src)))]> h, None)
            | DStringPtr v => Some (<[v := CString (encodeUUID (Bytes src))]> h, None)
            | DObj _ =>
                match GetAssignToDstType fw dst with
                | Some nextDst => AssignTo fw fuel src nextDst h
                | None => Some (h, None)
                end
            end
      end
  end.

(** [DecodeText] and [DecodeBinary]; the [*ConnInfo] argument is unused
    by both and left out. *)
Definition DecodeText (dst : UUID) (src : byteslice) : UUID * option error :=
  match src with
  | None => (setNil dst, None)
  | Some s =>
      if negb (length s =? 36) then
        (dst, Some (Errorf (str "invalid length for UUID: " ++ strconv.Itoa (length s))))
      else
        let '(buf, err) := parseUUID s in
        match err with
        | Some e => (dst, Some e)
        | None => (setByteArray dst buf, None)
        end
  end.

Definition DecodeBinary (dst : UUID) (src : byteslice) : UUID * option error :=
  match src with
  | None => (setNil dst, None)
  | Some s =>
      if negb (length s =? 16) then
        (dst, Some (Errorf (str "invalid length for UUID: " ++ strconv.Itoa (length s))))
      else setByteSlice dst src
  end.

Definition EncodeText (src : UUID) (buf : byteslice) : byteslice * option error :=
  if negb (Valid src) then (None, None)
  else (append buf (encodeUUID (Bytes src)), None).

Definition EncodeBinary (src : UUID) (buf : byteslice) : byteslice * option error :=
  if negb (Valid src) then (None, None)
  else (append buf (Bytes src), None).

(** The byte of the double quote. *)
Definition quote : byte := x22.

Definition MarshalJSON (src : UUID) : byteslice * option error :=
  if negb (Valid src) then (Some (str "null"), None)
  else (Some ([quote] ++ encodeUUID (Bytes src) ++ [quote]), None).

Definition UnmarshalJSON (fw : Framework) (fuel : nat) (dst : UUID) (src : byteslice)
  : option (UUID * option error) :=
  if (bytes.Compare src (Some (str "null")) =? 0)%Z then Set_ fw fuel dst VNil
  else if negb (len src =? 38) then
    Some (dst, Some (Errorf (str "invalid length for UUID: " ++ strconv.Itoa (len src))))
  else Set_ fw fuel dst (VString (slice 1 (len src - 1) (default [] src))).

(** ** Vocabulary of the specification *)

(** [Contains s sub]: [sub] occurs in [s] (Go's [strings.Contains]); an
    error message cites a number when it contains its decimal digits. *)
Fixpoint hasPrefix (s sub : gostring) {struct sub} : bool :=
  match sub, s with
  | [], _ => true
  | _ :: _, [] => false
  | y :: sub', x :: s' => Byte.eqb x y && hasPrefix s' sub'
  end.

Fixpoint Contains (s sub : gostring) : bool :=
  hasPrefix s sub ||
  match s with
  | [] => false
  | _ :: s' => Contains s' sub
  end.

(** A hexadecimal digit as the spec names it: [0-9], [a-f] or [A-F]. *)
Definition isHexDigit (c : byte) : bool :=
  existsb (Byte.eqb c) (str "0123456789abcdefABCDEF").

(** The canonical text of the spec, read off its words: 36 characters,
    a dash at each of the positions 8, 13, 18 and 23, and at the other
    positions the 32 lower-case hexadecimal digits of the 16 bytes in
    order, two per byte (zero-padded), high digit first. *)
Definition spec_dashAt (i : nat) : bool :=
  existsb (Nat.eqb i) [8; 13; 18; 23].

Definition spec_dashesBefore (i : nat) : nat :=
  length (filter (fun d => d <? i) [8; 13; 18; 23]).

Definition spec_lowerHex (n : N) : byte :=
  hex.byte_of_N (if (n <? 10)%N then 48 + n else 97 + (n - 10))%N.

Definition spec_digit (b : list byte) (j : nat) : byte :=
  let x := Byte.to_N (nth (j / 2) b x00) in
  spec_lowerHex (if Nat.even j then x / 16 else x mod 16)%N.

Definition spec_char (b : list byte) (i : nat) : byte :=
  if spec_dashAt i then "-"%byte else spec_digit b (i - spec_dashesBefore i).

Definition spec_format (b : list byte) : gostring :=
  map (spec_char b) (seq 0 36).

(** A container is well formed when its [Bytes] has the 16 bytes of its
    Go type. *)
Definition wf (u : UUID) : Prop := length (Bytes u) = 16.




(** ** Concrete programs used as test inputs *)

(** A program with no foreign objects and no hooks. *)
Definition bare : Framework :=
  {| methodGet := fun _ => None;
     comparePanics := fun _ _ => false;
     underlyingUUIDType := fun _ => None;
     Sprint := fun _ => str "{}";
     callGetter := fun _ _ => VNil;
     asDecoder := fun _ => None;
     callWrapper := fun _ _ => None;
     DecodeUUID := fun _ _ h => (h, None);
     NullAssignTo := fun _ h => (h, None);
     GetAssignToDstType := fun _ => None |}.

(** The zero value of [UUID]. *)
Definition zeroUUID : UUID :=
  {| Bytes := zero16; Valid := false; UUIDDecoderWrapper := None; Getter := None |}.

Definition sampleBytes : list byte :=
  [xa0; xee; xbc; x99; x9c; x0b; x4e; xf8; xbb; x6d; x6b; xb9; xbd; x38; x0a; x11].

Definition sampleText : gostring := str "a0eebc99-9c0b-4ef8-bb6d-6bb9bd380a11".

Definition sampleUUID : UUID :=
  {| Bytes := sampleBytes; Valid := true; UUIDDecoderWrapper := None; Getter := None |}.

(** A 36-character text with no dash at all at the four positions. *)
Definition undashedText : gostring := str "a0eebc99x9c0by4ef8zbb6dw6bb9bd380a11".

(** The sample text between two bytes that are no quotes. *)
Definition unquotedJSON : list byte := "<"%byte :: sampleText ++ [">"%byte].

(** A 36-character text with a letter that is no digit. *)
Definition badText : gostring := str "g0eebc99-9c0b-4ef8-bb6d-6bb9bd380a11".

(** A program whose [Getter] hook 0 renders the bytes as canonical text,
    valid or not, and a container that carries this hook. *)
Definition textGetter : Framework :=
  {| methodGet := fun _ => None;
     comparePanics := fun _ _ => false;
     underlyingUUIDType := fun _ => None;
     Sprint := fun _ => str "{}";
     callGetter := fun _ u => VString (encodeUUID (Bytes u));
     asDecoder := fun _ => None;
     callWrapper := fun _ _ => None;
     DecodeUUID := fun _ _ h => (h, None);
     NullAssignTo := fun _ h => (h, None);
     GetAssignToDstType := fun _ => None |}.

Definition withGetter : UUID :=
  {| Bytes := sampleBytes; Valid := true; UUIDDecoderWrapper := None; Getter := Some 0 |}.

(** A program whose [UUIDDecoderWrapper] hook 0 offers, for every
    destination, a decoder that refuses the value, and a valid container
    that carries this hook. *)
Definition refusingWrapper : Framework :=
  {| methodGet := fun _ => None;
     comparePanics := fun _ _ => false;
     underlyingUUIDType := fun _ => None;
     Sprint := fun _ => str "{}";
     callGetter := fun _ _ => VNil;
     asDecoder := fun _ => None;
     callWrapper := fun _ _ => Some 0;
     DecodeUUID := fun _ _ h => (h, Some (ForeignError 1));
     NullAssignTo := fun _ h => (h, None);
     GetAssignToDstType := fun _ => None |}.

Definition withWrapper : UUID :=
  {| Bytes := sampleBytes; Valid := true; UUIDDecoderWrapper := Some 0; Getter := None |}.




(** *** Driver scan *)

(** The verb [%T]: the dynamic type of a value, as [fmt] prints it.  The
    type of an object is given by [typeOf]. *)
Definition Sprint_T (typeOf : nat -> gostring) (v : value) : gostring :=
  match v with
  | VNil => str "<nil>"
  | VArray16 _ => str "[16]uint8"
  | VBytes _ => str "[]uint8"
  | VString _ => str "string"
  | VStringPtr _ => str "*string"
  | VObj id => typeOf id
  end.

(** [Scan] implements the database/sql Scanner interface.  The
    conversion [[]byte(src)] of a string and [make([]byte, len(src))]
    both give a non-nil slice, also for length 0. *)
Definition Scan (typeOf : nat -> gostring) (dst : UUID) (src : value)
  : UUID * option error :=
  match src with
  | VNil => (setNil dst, None)
  | VString src => DecodeText dst (Some src)
  | VBytes src =>
      let srcCopy := copy (repeat x00 (len src)) (default [] src) in
      DecodeText dst (Some srcCopy)
  | _ => (dst, Some (Errorf (str "cannot scan " ++ Sprint_T typeOf src)))
  end.

(** *** More vocabulary *)

(** ASCII case mapping of one byte. *)
Definition toLower (c : byte) : byte :=
  let n := Byte.to_N c in
  if (65 <=? n)%N && (n <=? 90)%N then hex.byte_of_N (n + 32) else c.

Definition toUpper (c : byte) : byte :=
  let n := Byte.to_N c in
  if (97 <=? n)%N && (n <=? 122)%N then hex.byte_of_N (n - 32) else c.

(** A 36-character text brought to canonical shape: the five groups in
    lower case, a dash at each of the four positions between them. *)
Definition canonical36 (src : gostring) : gostring :=
  map toLower (slice 0 8 src) ++ str "-" ++
  map toLower (slice 9 13 src) ++ str "-" ++
  map toLower (slice 14 18 src) ++ str "-" ++
  map toLower (slice 19 23 src) ++ str "-" ++
  map toLower (skipn 24 src).

(** Thirty-two characters with the four dashes put in. *)
Definition insertDashes (t : gostring) : gostring :=
  slice 0 8 t ++ str "-" ++ slice 8 12 t ++ str "-" ++ slice 12 16 t ++ str "-" ++
  slice 16 20 t ++ str "-" ++ skipn 20 t.

(** A source value is well formed when a [[16]byte] in it has 16 bytes. *)
Definition wfValue (v : value) : Prop :=
  match v with
  | VArray16 a => length a = 16
  | _ => True
  end.

(** A program is well formed when the values its objects unwrap to are. *)
Definition wfFramework (fw : Framework) : Prop :=
  (forall id v, methodGet fw id = Some v -> wfValue v) /\
  (forall id v, underlyingUUIDType fw id = Some v -> wfValue v).

(** What a container's value is, hooks apart. *)
Definition sameValue (u v : UUID) : Prop :=
  Bytes u = Bytes v /\ Valid u = Valid v.

Definition sameHooks (u v : UUID) : Prop :=
  UUIDDecoderWrapper u = UUIDDecoderWrapper v /\ Getter u = Getter v.

(** The JSON literal of a container, read off the spec: for a valid
    one the canonical text between two double quotes (byte 0x22), for
    an invalid one the four bytes [null]. *)
Definition spec_json (v : UUID) : list byte :=
  if Valid v then x22 :: spec_format (Bytes v) ++ [x22] else str "null".

(** The sample text in upper case. *)
Definition upperText : gostring := str "A0EEBC99-9C0B-4EF8-BB6D-6BB9BD380A11".

(** A second sample. *)
Definition otherBytes : list byte :=
  [x00; x01; x02; x03; x04; x05; x06; x07; x08; x09; x0a; x0b; x0c; x0d; x0e; xff].

Definition otherUUID : UUID :=
  {| Bytes := otherBytes; Valid := true; UUIDDecoderWrapper := None; Getter := None |}.

(** A program in which object 0 is a container-like wrapper whose [Get]
    returns the sample bytes, object 1 one whose [Get] returns nil, and
    object 5 a destination for which the framework offers the string
    pointer 0 as alternative. *)
Definition carriers : Framework :=
  {| methodGet := fun id =>
       match id with
       | 0 => Some (VArray16 sampleBytes)
       | 1 => Some VNil
       | _ => None
       end;
     comparePanics := fun _ _ => false;
     underlyingUUIDType := fun _ => None;
     Sprint := fun _ => str "{}";
     callGetter := fun _ _ => VNil;
     asDecoder := fun _ => None;
     callWrapper := fun _ _ => None;
     DecodeUUID := fun _ _ h => (h, None);
     NullAssignTo := fun _ h => (h, None);
     GetAssignToDstType := fun d =>
       match d with
       | DObj 5 => Some (DStringPtr 0)
       | _ => None
       end |}.

(** ** Properties *)

Example parse_example : parseUUID sampleText = (sampleBytes, None).
Proof. vm_compute. reflexivity. Qed.

Example format_example : encodeUUID sampleBytes = sampleText.
Proof. vm_compute. reflexivity. Qed.

Example spec_format_example : spec_format sampleBytes = sampleText.
Proof. vm_compute. reflexivity. Qed.

Example Itoa_example : strconv.Itoa 36 = str "36" /\ strconv.Itoa 0 = str "0".
Proof. split; vm_compute; reflexivity. Qed.

(** *** Bytes, digits and sequences *)

Lemma fromHexChar_hi (b : byte) :
  hex.fromHexChar (fmt.hexdigit (N.shiftr (Byte.to_N b) 4)) = Some (N.shiftr (Byte.to_N b) 4).
Proof. destruct b; reflexivity. Qed.

Lemma fromHexChar_lo (b : byte) :
  hex.fromHexChar (fmt.hexdigit (N.land (Byte.to_N b) 15)) = Some (N.land (Byte.to_N b) 15).
Proof. destruct b; reflexivity. Qed.

Lemma byte_of_nibbles (b : byte) :
  hex.byte_of_N (N.lor (N.shiftl (N.shiftr (Byte.to_N b) 4) 4) (N.land (Byte.to_N b) 15)) = b.
Proof. destruct b; reflexivity. Qed.

Lemma hexdigit_hi_spec (b : byte) :
  fmt.hexdigit (N.shiftr (Byte.to_N b) 4) = spec_lowerHex (Byte.to_N b / 16).
Proof. destruct b; reflexivity. Qed.

Lemma hexdigit_lo_spec (b : byte) :
  fmt.hexdigit (N.land (Byte.to_N b) 15) = spec_lowerHex (Byte.to_N b mod 16).
Proof. destruct b; reflexivity. Qed.

Lemma isHexDigit_fromHexChar (c : byte) :
  isHexDigit c = true <-> hex.fromHexChar c <> None.
Proof. destruct c; vm_compute; split; congruence. Qed.

Lemma Sprintf_x_cons (b : byte) (l : list byte) :
  fmt.Sprintf_x (b :: l) =
  fmt.hexdigit (N.shiftr (Byte.to_N b) 4) :: fmt.hexdigit (N.land (Byte.to_N b) 15)
    :: fmt.Sprintf_x l.
Proof. reflexivity. Qed.

Lemma Sprintf_x_app (l1 l2 : list byte) :
  fmt.Sprintf_x (l1 ++ l2) = fmt.Sprintf_x l1 ++ fmt.Sprintf_x l2.
Proof. unfold fmt.Sprintf_x. apply flat_map_app. Qed.

Lemma Sprintf_x_length (l : list byte) : length (fmt.Sprintf_x l) = 2 * length l.
Proof.
  induction l as [|b l IH]; [reflexivity|].
  rewrite Sprintf_x_cons. cbn [length]. rewrite IH. lia.
Qed.

(** Decoding the [%x] rendering of a byte sequence gives it back. *)
Lemma Decode_Sprintf_x (l : list byte) : hex.Decode (fmt.Sprintf_x l) = (l, None).
Proof.
  induction l as [|b l IH]; [reflexivity|].
  rewrite Sprintf_x_cons. cbn [hex.Decode].
  rewrite fromHexChar_hi, fromHexChar_lo, IH, byte_of_nibbles. reflexivity.
Qed.

(** A sequence of length 16, spelled out. *)
Lemma length16_inv {A : Type} (l : list A) :
  length l = 16 ->
  exists a0 a1 a2 a3 a4 a5 a6 a7 a8 a9 a10 a11 a12 a13 a14 a15,
    l = [a0; a1; a2; a3; a4; a5; a6; a7; a8; a9; a10; a11; a12; a13; a14; a15].
Proof.
  intros H.
  do 16 (destruct l as [|? l]; [discriminate H|]).
  destruct l; [|discriminate H].
  repeat eexists.
Qed.

Ltac spell16 b H :=
  let E := fresh "E" in
  destruct (length16_inv b H) as (?&?&?&?&?&?&?&?&?&?&?&?&?&?&?&?&E); subst b.

Lemma copy_same_length {A : Type} (dst src : list A) :
  length src = length dst -> copy dst src = src.
Proof.
  intros H. unfold copy.
  rewrite <- H, firstn_all, skipn_all2 by lia. apply app_nil_r.
Qed.

Lemma encodeUUID_dropDashes (b : list byte) :
  length b = 16 -> dropDashes (encodeUUID b) = fmt.Sprintf_x b.
Proof. intros H. spell16 b H. reflexivity. Qed.

Lemma encodeUUID_length (b : list byte) : length b = 16 -> length (encodeUUID b) = 36.
Proof. intros H. spell16 b H. reflexivity. Qed.

Lemma encodeUUID_spec_format (b : list byte) :
  length b = 16 -> encodeUUID b = spec_format b.
Proof.
  intros H. spell16 b H.
  unfold encodeUUID, slice. cbn [firstn skipn Nat.sub].
  rewrite !Sprintf_x_cons, !hexdigit_hi_spec, !hexdigit_lo_spec.
  reflexivity.
Qed.

Lemma parseUUID_encodeUUID (b : list byte) :
  length b = 16 -> parseUUID (encodeUUID b) = (b, None).
Proof.
  intros H. unfold parseUUID.
  rewrite (encodeUUID_length b H). cbn [Nat.eqb].
  rewrite (encodeUUID_dropDashes b H). unfold hex.DecodeString.
  rewrite Decode_Sprintf_x.
  rewrite copy_same_length; [reflexivity|]. rewrite H. reflexivity.
Qed.

(** *** Canonical text: format and parse *)

(** C1.  For every 16-byte array [b], parsing the text produced by
    [encodeUUID] gives [b] back without error, and that text is exactly
    the canonical form of the spec: 36 characters, lower-case
    hexadecimal, two digits per byte, dashes after the groups of 4, 2, 2
    and 2 bytes. *)
Theorem parse_format_roundtrip (b : list byte) :
  length b = 16 ->
  parseUUID (encodeUUID b) = (b, None) /\
  encodeUUID b = spec_format b /\
  length (encodeUUID b) = 36.
Proof.
  intros H. split; [|split].
  - exact (parseUUID_encodeUUID b H).
  - exact (encodeUUID_spec_format b H).
  - exact (encodeUUID_length b H).
Qed.

Lemma parse_format_roundtrip_witness :
  length sampleBytes = 16 /\
  parseUUID (encodeUUID sampleBytes) = (sampleBytes, None) /\
  encodeUUID sampleBytes = spec_format sampleBytes /\
  length (encodeUUID sampleBytes) = 36.
Proof.
  split; [reflexivity|]. apply (parse_format_roundtrip sampleBytes). reflexivity.
Defined.

(** Induction over a sequence two elements at a time, as [hex.Decode]
    walks it. *)
Lemma pairs_ind {A : Type} (P : list A -> Prop) :
  P [] -> (forall a, P [a]) -> (forall a b l, P l -> P (a :: b :: l)) ->
  forall l, P l.
Proof.
  intros H0 H1 H2.
  assert (forall l, P l /\ forall a, P (a :: l)) as H.
  { induction l as [|x l [IHl IHc]]; split; auto. }
  intros l. apply H.
Qed.

Lemma fromHexChar_isHexDigit_false (c : byte) :
  hex.fromHexChar c = None -> isHexDigit c = false.
Proof.
  intros H. destruct (isHexDigit c) eqn:E; [|reflexivity].
  apply isHexDigit_fromHexChar in E. contradiction.
Qed.

Lemma fromHexChar_isHexDigit_true (c : byte) (n : N) :
  hex.fromHexChar c = Some n -> isHexDigit c = true.
Proof. intros H. apply isHexDigit_fromHexChar. congruence. Qed.

(** An even number of digits decodes, to half as many bytes. *)
Lemma Decode_digits (l : list byte) :
  Forall (fun c => isHexDigit c = true) l -> Nat.even (length l) = true ->
  exists out, hex.Decode l = (out, None) /\ 2 * length out = length l.
Proof.
  induction l as [| a | a b l IH] using pairs_ind; intros Hd He.
  - exists []. split; reflexivity.
  - discriminate He.
  - inversion Hd as [|? ? Ha Hd']; subst. inversion Hd' as [|? ? Hb Hl]; subst.
    destruct (IH Hl He) as (out & Hout & Hlen).
    apply isHexDigit_fromHexChar in Ha, Hb.
    cbn [hex.Decode].
    destruct (hex.fromHexChar a) as [x|]; [|contradiction].
    destruct (hex.fromHexChar b) as [y|]; [|contradiction].
    rewrite Hout. eexists. split; [reflexivity|]. cbn [length]. lia.
Qed.

(** Whatever fault [hex.Decode] reports is one of its own two: a byte of
    the input that is no digit, or an odd length. *)
Lemma Decode_fault (l out : list byte) (e : error) :
  hex.Decode l = (out, Some e) ->
  (exists c, e = InvalidByteError c /\ In c l /\ isHexDigit c = false) \/
  (e = ErrLength /\ Nat.even (length l) = false).
Proof.
  revert out. induction l as [| a | a b l IH] using pairs_ind; intros out H.
  - discriminate H.
  - cbn [hex.Decode] in H. destruct (hex.fromHexChar a) eqn:Ea.
    + inversion H; subst. right. split; reflexivity.
    + inversion H; subst. left. exists a.
      split; [reflexivity|]. split; [left; reflexivity|].
      exact (fromHexChar_isHexDigit_false a Ea).
  - cbn [hex.Decode] in H.
    destruct (hex.fromHexChar a) eqn:Ea.
    2:{ inversion H; subst. left. exists a. split; [reflexivity|].
        split; [left; reflexivity|]. exact (fromHexChar_isHexDigit_false a Ea). }
    destruct (hex.fromHexChar b) eqn:Eb.
    2:{ inversion H; subst. left. exists b. split; [reflexivity|].
        split; [right; left; reflexivity|]. exact (fromHexChar_isHexDigit_false b Eb). }
    destruct (hex.Decode l) as [out' err'] eqn:El. inversion H; subst.
    destruct (IH out' eq_refl) as [(c & Hc & Hin & Hno) | (He & Hodd)].
    + left. exists c. split; [exact Hc|]. split; [right; right; exact Hin|exact Hno].
    + right. split; [exact He|]. exact Hodd.
Qed.

(** A byte that is no digit makes [hex.Decode] fail on an input of even
    length, with [InvalidByteError] on such a byte. *)
Lemma Decode_invalid (l : list byte) :
  Nat.even (length l) = true ->
  ~ Forall (fun c => isHexDigit c = true) l ->
  exists out c, hex.Decode l = (out, Some (InvalidByteError c)) /\
                In c l /\ isHexDigit c = false.
Proof.
  intros He Hn.
  destruct (hex.Decode l) as [out [e|]] eqn:E.
  - destruct (Decode_fault l out e E) as [(c & -> & Hin & Hno) | (_ & Hodd)].
    + exists out, c. auto.
    + congruence.
  - exfalso. apply Hn. clear Hn.
    revert out E He. induction l as [| a | a b l IH] using pairs_ind; intros out E He.
    + constructor.
    + discriminate He.
    + cbn [hex.Decode] in E.
      destruct (hex.fromHexChar a) eqn:Ea; [|discriminate E].
      destruct (hex.fromHexChar b) eqn:Eb; [|discriminate E].
      destruct (hex.Decode l) as [out' err'] eqn:El. inversion E; subst.
      constructor; [exact (fromHexChar_isHexDigit_true a _ Ea)|].
      constructor; [exact (fromHexChar_isHexDigit_true b _ Eb)|].
      exact (IH out' eq_refl He).
Qed.

Lemma dropDashes_length (src : gostring) :
  length src = 36 -> length (dropDashes src) = 32.
Proof.
  intros H. unfold dropDashes, slice.
  rewrite !length_app, !length_firstn, !length_skipn. lia.
Qed.

(** [dropDashes] removes the characters at positions 8, 13, 18 and 23,
    whatever they are, and nothing else. *)
Lemma dropDashes_positions (g1 g2 g3 g4 g5 : gostring) (d1 d2 d3 d4 : byte) :
  length g1 = 8 -> length g2 = 4 -> length g3 = 4 -> length g4 = 4 ->
  dropDashes (g1 ++ d1 :: g2 ++ d2 :: g3 ++ d3 :: g4 ++ d4 :: g5) =
  g1 ++ g2 ++ g3 ++ g4 ++ g5.
Proof.
  intros H1 H2 H3 H4.
  do 8 (destruct g1 as [|? g1]; [discriminate H1|]). destruct g1; [|discriminate H1].
  do 4 (destruct g2 as [|? g2]; [discriminate H2|]). destruct g2; [|discriminate H2].
  do 4 (destruct g3 as [|? g3]; [discriminate H3|]). destruct g3; [|discriminate H3].
  do 4 (destruct g4 as [|? g4]; [discriminate H4|]). destruct g4; [|discriminate H4].
  reflexivity.
Qed.

Lemma parseUUID_other_length (src : gostring) :
  length src <> 36 -> length src <> 32 ->
  parseUUID src = (zero16, Some (Errorf (str "cannot parse UUID " ++ src))).
Proof.
  intros H36 H32. unfold parseUUID.
  apply Nat.eqb_neq in H36, H32. rewrite H36, H32. reflexivity.
Qed.

Lemma parseUUID_32 (src : gostring) :
  length src = 32 ->
  parseUUID src =
  match hex.DecodeString src with
  | (_, Some e) => (zero16, Some e)
  | (buf, None) => (copy zero16 buf, None)
  end.
Proof.
  intros H. unfold parseUUID. rewrite H. cbn [Nat.eqb].
  destruct (hex.DecodeString src) as [buf [e|]]; reflexivity.
Qed.

Lemma parseUUID_36 (src : gostring) :
  length src = 36 -> parseUUID src = parseUUID (dropDashes src).
Proof.
  intros H. rewrite (parseUUID_32 (dropDashes src) (dropDashes_length src H)).
  unfold parseUUID. rewrite H. cbn [Nat.eqb].
  destruct (hex.DecodeString (dropDashes src)) as [buf [e|]]; reflexivity.
Qed.

Lemma parseUUID_32_digits (src : gostring) :
  length src = 32 -> Forall (fun c => isHexDigit c = true) src ->
  exists b, parseUUID src = (b, None) /\ length b = 16.
Proof.
  intros H Hd. rewrite (parseUUID_32 src H). unfold hex.DecodeString.
  destruct (Decode_digits src Hd) as (out & -> & Hlen).
  { rewrite H. reflexivity. }
  exists (copy zero16 out). split; [reflexivity|].
  rewrite copy_same_length; [|change (length zero16) with 16]; lia.
Qed.

Lemma parseUUID_32_fault (src buf : gostring) (e : error) :
  length src = 32 -> hex.DecodeString src = (buf, Some e) ->
  parseUUID src = (zero16, Some e).
Proof. intros H E. rewrite (parseUUID_32 src H), E. reflexivity. Qed.

Lemma parseUUID_32_invalid (src : gostring) :
  length src = 32 -> ~ Forall (fun c => isHexDigit c = true) src ->
  exists c, parseUUID src = (zero16, Some (InvalidByteError c)) /\
            In c src /\ isHexDigit c = false.
Proof.
  intros H Hn.
  destruct (Decode_invalid src) as (out & c & E & Hin & Hno); [rewrite H; reflexivity|exact Hn|].
  exists c. split; [|split; assumption].
  exact (parseUUID_32_fault src out _ H E).
Qed.

Lemma parseUUID_ok_length (src : gostring) (b : list byte) :
  parseUUID src = (b, None) -> length src = 36 \/ length src = 32.
Proof.
  intros H.
  destruct (Nat.eq_dec (length src) 36) as [|H36]; [left; assumption|].
  destruct (Nat.eq_dec (length src) 32) as [|H32]; [right; assumption|].
  rewrite (parseUUID_other_length src H36 H32) in H. discriminate H.
Qed.

(** C2, as the code has it.  [parseUUID] accepts exactly the lengths 36
    and 32.  Any other length fails with the error
    ["cannot parse UUID " ++ src], which cites the offending text (not
    its length).  With 36 characters, the characters at positions 8, 13,
    18 and 23 are dropped unread and the rest is parsed as the
    32-character form, so anything may stand at the four positions.  An
    input of 32 digits parses to 16 bytes; a character that is no digit
    makes it fail with the [InvalidByteError] of [encoding/hex], and any
    fault of the hex decoder is returned as it is. *)
Theorem parseUUID_lengths (src : gostring) :
  (forall b, parseUUID src = (b, None) -> length src = 36 \/ length src = 32) /\
  (length src <> 36 -> length src <> 32 ->
   parseUUID src = (zero16, Some (Errorf (str "cannot parse UUID " ++ src)))) /\
  (length src = 36 ->
   parseUUID src = parseUUID (dropDashes src) /\ length (dropDashes src) = 32) /\
  (forall (g1 g2 g3 g4 g5 : gostring) (d1 d2 d3 d4 : byte),
     length g1 = 8 -> length g2 = 4 -> length g3 = 4 -> length g4 = 4 ->
     length g5 = 12 ->
     src = g1 ++ d1 :: g2 ++ d2 :: g3 ++ d3 :: g4 ++ d4 :: g5 ->
     Forall (fun c => isHexDigit c = true) (g1 ++ g2 ++ g3 ++ g4 ++ g5) ->
     exists b, parseUUID src = (b, None) /\ length b = 16 /\
               parseUUID (g1 ++ g2 ++ g3 ++ g4 ++ g5) = (b, None)) /\
  (length src = 32 -> Forall (fun c => isHexDigit c = true) src ->
   exists b, parseUUID src = (b, None) /\ length b = 16) /\
  (length src = 32 -> ~ Forall (fun c => isHexDigit c = true) src ->
   exists c, parseUUID src = (zero16, Some (InvalidByteError c)) /\
             In c src /\ isHexDigit c = false) /\
  (length src = 32 -> forall buf e,
     hex.DecodeString src = (buf, Some e) -> parseUUID src = (zero16, Some e)) /\
  (length src = 36 -> ~ Forall (fun c => isHexDigit c = true) (dropDashes src) ->
   exists c, parseUUID src = (zero16, Some (InvalidByteError c)) /\
             In c (dropDashes src) /\ isHexDigit c = false) /\
  (length src = 36 -> forall buf e,
     hex.DecodeString (dropDashes src) = (buf, Some e) ->
     parseUUID src = (zero16, Some e)).
Proof.
  split; [|split; [|split; [|split; [|split; [|split; [|split; [|split]]]]]]].
  - exact (parseUUID_ok_length src).
  - exact (parseUUID_other_length src).
  - intros H. split; [exact (parseUUID_36 src H)|exact (dropDashes_length src H)].
  - intros g1 g2 g3 g4 g5 d1 d2 d3 d4 H1 H2 H3 H4 H5 -> Hd.
    assert (length (g1 ++ g2 ++ g3 ++ g4 ++ g5) = 32) as H32.
    { rewrite !length_app. lia. }
    destruct (parseUUID_32_digits _ H32 Hd) as (b & Hb & Hlen).
    exists b. split; [|split; assumption].
    rewrite parseUUID_36.
    + rewrite (dropDashes_positions g1 g2 g3 g4 g5 d1 d2 d3 d4 H1 H2 H3 H4). exact Hb.
    + rewrite !length_app; cbn [length]; rewrite !length_app; cbn [length];
        rewrite !length_app; cbn [length]; rewrite !length_app; cbn [length]. lia.
  - exact (parseUUID_32_digits src).
  - exact (parseUUID_32_invalid src).
  - intros H buf e. exact (parseUUID_32_fault src buf e H).
  - intros H Hn. rewrite (parseUUID_36 src H).
    exact (parseUUID_32_invalid _ (dropDashes_length src H) Hn).
  - intros H buf e E. rewrite (parseUUID_36 src H).
    exact (parseUUID_32_fault _ buf e (dropDashes_length src H) E).
Qed.

Lemma parseUUID_lengths_witness :
  exists b, parseUUID undashedText = (b, None) /\ length b = 16 /\
            parseUUID (str "a0eebc999c0b4ef8bb6d6bb9bd380a11") = (b, None).
Proof.
  apply (proj1 (proj2 (proj2 (proj2 (parseUUID_lengths undashedText))))
           (str "a0eebc99") (str "9c0b") (str "4ef8") (str "bb6d") (str "6bb9bd380a11")
           "x"%byte "y"%byte "z"%byte "w"%byte);
    try reflexivity.
  repeat constructor.
Defined.

(** C2 as stated fails on the code: for a 3-character input the error
    is ["cannot parse UUID abc"], in which the length 3 does not occur. *)
Lemma parseUUID_error_cites_text_not_length :
  parseUUID (str "abc") = (zero16, Some (Errorf (str "cannot parse UUID abc"))) /\
  Contains (str "cannot parse UUID abc") (strconv.Itoa (length (str "abc"))) = false.
Proof. split; vm_compute; reflexivity. Qed.

(** *** Messages and comparisons *)

Lemma hasPrefix_app (sub rest : gostring) : hasPrefix (sub ++ rest) sub = true.
Proof.
  induction sub as [|x sub IH]; [reflexivity|].
  cbn [app hasPrefix]. rewrite IH, (Byte.byte_dec_lb eq_refl). reflexivity.
Qed.

Lemma Contains_intro (pre sub post : gostring) :
  Contains (pre ++ sub ++ post) sub = true.
Proof.
  induction pre as [|x pre IH].
  - cbn [app]. destruct (sub ++ post) eqn:E; cbn [Contains];
      rewrite <- ?E, hasPrefix_app; reflexivity.
  - cbn [app Contains]. rewrite IH. apply orb_true_r.
Qed.

(** A message that ends in the decimal digits of [n] cites [n]. *)
Lemma Contains_suffix (pre sub : gostring) : Contains (pre ++ sub) sub = true.
Proof. rewrite <- (app_nil_r sub) at 1. apply Contains_intro. Qed.

Lemma to_N_inj (x y : byte) : Byte.to_N x = Byte.to_N y -> x = y.
Proof.
  intros H. pose proof (Byte.of_to_N x) as Hx. rewrite H, Byte.of_to_N in Hx.
  congruence.
Qed.

Lemma compare_eq (a b : list byte) : bytes.compare a b = 0%Z <-> a = b.
Proof.
  revert b. induction a as [|x a IH]; intros [|y b]; cbn [bytes.compare];
    try (split; [discriminate|congruence]); [split; reflexivity|].
  destruct (N.ltb_spec (Byte.to_N x) (Byte.to_N y)) as [Hlt|Hge].
  { split; [discriminate|]. intros E. inversion E; subst. lia. }
  destruct (N.ltb_spec (Byte.to_N y) (Byte.to_N x)) as [Hlt|Hle].
  { split; [discriminate|]. intros E. inversion E; subst. lia. }
  assert (x = y) as -> by (apply to_N_inj; lia).
  rewrite IH. split; congruence.
Qed.

Lemma Compare_null (src : byteslice) :
  (bytes.Compare src (Some (str "null")) =? 0)%Z = true <-> default [] src = str "null".
Proof. unfold bytes.Compare. rewrite Z.eqb_eq. apply compare_eq. Qed.

Lemma slice_inner {A : Type} (x y : A) (l : list A) :
  slice 1 (length (x :: l ++ [y]) - 1) (x :: l ++ [y]) = l.
Proof.
  unfold slice. change (skipn 1 (x :: l ++ [y])) with (l ++ [y]).
  replace (length (x :: l ++ [y]) - 1 - 1) with (length l)
    by (cbn [length]; rewrite length_app; cbn [length]; lia).
  rewrite firstn_app, firstn_all, Nat.sub_diag. cbn [firstn]. apply app_nil_r.
Qed.

(** *** The setters *)

Lemma setByteSlice_16 (dst : UUID) (s : list byte) :
  wf dst -> length s = 16 -> setByteSlice dst (Some s) = (setByteArray dst s, None).
Proof.
  intros Hwf H. unfold setByteSlice. rewrite H. cbn [Nat.eqb negb].
  rewrite copy_same_length by (rewrite Hwf; exact H). reflexivity.
Qed.

Lemma setByteSlice_other (dst : UUID) (s : list byte) :
  length s <> 16 ->
  setByteSlice dst (Some s) =
  (dst, Some (Errorf (str "[]byte must be 16 bytes to convert to UUID: "
                        ++ strconv.Itoa (length s)))).
Proof.
  intros H. unfold setByteSlice. apply Nat.eqb_neq in H. rewrite H. reflexivity.
Qed.

Lemma setByteSlice_error (dst dst' : UUID) (s : byteslice) (e : error) :
  setByteSlice dst s = (dst', Some e) -> dst' = dst.
Proof.
  unfold setByteSlice. destruct s as [s|]; [|discriminate].
  destruct (negb (length s =? 16)); congruence.
Qed.

Lemma setString_error (dst dst' : UUID) (s : gostring) (e : error) :
  setString dst s = (dst', Some e) -> dst' = dst.
Proof.
  unfold setString. destruct (parseUUID s) as [uuid [e'|]]; congruence.
Qed.

(** [Set] on the shapes that have no methods goes straight to the type
    switch. *)
Lemma Set_bytes (fw : Framework) (fuel : nat) (dst : UUID) (s : byteslice) :
  Set_ fw (S fuel) dst (VBytes s) = Some (setByteSlice dst s).
Proof. reflexivity. Qed.

Lemma Set_string (fw : Framework) (fuel : nat) (dst : UUID) (s : gostring) :
  Set_ fw (S fuel) dst (VString s) = Some (setString dst s).
Proof. reflexivity. Qed.

Lemma Set_nil (fw : Framework) (fuel : nat) (dst : UUID) :
  Set_ fw (S fuel) dst VNil = Some (setNil dst, None).
Proof. reflexivity. Qed.

(** An error from [Set] leaves the container as it was, however deep the
    unwrapping went. *)
Lemma Set_error (fw : Framework) (fuel : nat) :
  forall (dst dst' : UUID) (src : value) (e : error),
    Set_ fw fuel dst src = Some (dst', Some e) -> dst' = dst.
Proof.
  induction fuel as [|fuel IH]; intros dst dst' src e H; [discriminate H|].
  cbn [Set_] in H.
  destruct src as [|a|s|s|[s|]|id]; cbn [callGet] in H.
  - discriminate H.
  - congruence.
  - inversion H as [H']. exact (setByteSlice_error _ _ _ _ H').
  - inversion H as [H']. exact (setString_error _ _ _ _ H').
  - inversion H as [H']. exact (setString_error _ _ _ _ H').
  - discriminate H.
  - destruct (methodGet fw id) as [value2|].
    + destruct (notEqual fw value2 (VObj id)) as [[|]|].
      * exact (IH _ _ _ _ H).
      * destruct (underlyingUUIDType fw id); [exact (IH _ _ _ _ H)|congruence].
      * discriminate H.
    + destruct (underlyingUUIDType fw id); [exact (IH _ _ _ _ H)|congruence].
Qed.

(** *** Wire decoding *)

Lemma DecodeText_other (dst : UUID) (s : list byte) :
  length s <> 36 ->
  DecodeText dst (Some s) =
  (dst, Some (Errorf (str "invalid length for UUID: " ++ strconv.Itoa (length s)))).
Proof.
  intros H. unfold DecodeText. apply Nat.eqb_neq in H. rewrite H. reflexivity.
Qed.

Lemma DecodeText_36 (dst : UUID) (s : list byte) :
  length s = 36 -> DecodeText dst (Some s) = setString dst s.
Proof. intros H. unfold DecodeText, setString. rewrite H. reflexivity. Qed.

Lemma DecodeBinary_other (dst : UUID) (s : list byte) :
  length s <> 16 ->
  DecodeBinary dst (Some s) =
  (dst, Some (Errorf (str "invalid length for UUID: " ++ strconv.Itoa (length s)))).
Proof.
  intros H. unfold DecodeBinary. apply Nat.eqb_neq in H. rewrite H. reflexivity.
Qed.

Lemma DecodeBinary_16 (dst : UUID) (s : list byte) :
  wf dst -> length s = 16 -> DecodeBinary dst (Some s) = (setByteArray dst s, None).
Proof.
  intros Hwf H. unfold DecodeBinary. rewrite H. cbn [Nat.eqb negb].
  exact (setByteSlice_16 dst s Hwf H).
Qed.

Lemma DecodeText_error (dst dst' : UUID) (src : byteslice) (e : error) :
  DecodeText dst src = (dst', Some e) -> dst' = dst.
Proof.
  destruct src as [s|]; [|discriminate].
  destruct (Nat.eq_dec (length s) 36) as [H|H].
  - rewrite (DecodeText_36 dst s H). apply setString_error.
  - rewrite (DecodeText_other dst s H). congruence.
Qed.

Lemma DecodeBinary_error (dst dst' : UUID) (src : byteslice) (e : error) :
  DecodeBinary dst src = (dst', Some e) -> dst' = dst.
Proof.
  destruct src as [s|]; [|discriminate].
  destruct (Nat.eq_dec (length s) 16) as [H|H].
  - unfold DecodeBinary. rewrite H. cbn [Nat.eqb negb]. apply setByteSlice_error.
  - rewrite (DecodeBinary_other dst s H). congruence.
Qed.

(** C3.  Wire decoding checks lengths exactly.  [DecodeText] and
    [DecodeBinary] on a nil payload make the container invalid and
    return no error.  On any other payload, [DecodeText] succeeds only
    with exactly 36 bytes (which it then parses) and [DecodeBinary] only
    with exactly 16 (which it then stores); every other length is an
    error whose message names the length observed. *)
Theorem decode_wire_lengths (dst : UUID) :
  (DecodeText dst None = (setNil dst, None) /\
   DecodeBinary dst None = (setNil dst, None) /\
   Valid (setNil dst) = false) /\
  (forall s, length s <> 36 ->
     DecodeText dst (Some s) =
     (dst, Some (Errorf (str "invalid length for UUID: " ++ strconv.Itoa (length s)))) /\
     Contains (str "invalid length for UUID: " ++ strconv.Itoa (length s))
              (strconv.Itoa (length s)) = true) /\
  (forall s dst', DecodeText dst (Some s) = (dst', None) -> length s = 36) /\
  (forall s, length s = 36 -> DecodeText dst (Some s) = setString dst s) /\
  (forall s, length s <> 16 ->
     DecodeBinary dst (Some s) =
     (dst, Some (Errorf (str "invalid length for UUID: " ++ strconv.Itoa (length s)))) /\
     Contains (str "invalid length for UUID: " ++ strconv.Itoa (length s))
              (strconv.Itoa (length s)) = true) /\
  (forall s dst', DecodeBinary dst (Some s) = (dst', None) -> length s = 16) /\
  (forall s, wf dst -> length s = 16 ->
     DecodeBinary dst (Some s) = (setByteArray dst s, None)).
Proof.
  split; [|split; [|split; [|split; [|split; [|split]]]]].
  - repeat split.
  - intros s H. split; [exact (DecodeText_other dst s H)|apply Contains_suffix].
  - intros s dst' H. destruct (Nat.eq_dec (length s) 36) as [|Hn]; [assumption|].
    rewrite (DecodeText_other dst s Hn) in H. discriminate H.
  - exact (DecodeText_36 dst).
  - intros s H. split; [exact (DecodeBinary_other dst s H)|apply Contains_suffix].
  - intros s dst' H. destruct (Nat.eq_dec (length s) 16) as [|Hn]; [assumption|].
    rewrite (DecodeBinary_other dst s Hn) in H. discriminate H.
  - intros s Hwf H. exact (DecodeBinary_16 dst s Hwf H).
Qed.

Lemma decode_wire_lengths_witness :
  DecodeText zeroUUID (Some (str "a0eebc99-9c0b-4ef8-bb6d-6bb9bd380a1")) =
    (zeroUUID, Some (Errorf (str "invalid length for UUID: 35"))) /\
  DecodeBinary zeroUUID (Some (sampleBytes ++ [x00])) =
    (zeroUUID, Some (Errorf (str "invalid length for UUID: 17"))) /\
  DecodeBinary zeroUUID (Some sampleBytes) = (sampleUUID, None).
Proof.
  pose proof (decode_wire_lengths zeroUUID) as (_ & Ht & _ & _ & Hb & _ & Hok).
  split; [|split].
  - apply (Ht (str "a0eebc99-9c0b-4ef8-bb6d-6bb9bd380a1")). vm_compute. discriminate.
  - apply (Hb (sampleBytes ++ [x00])). vm_compute. discriminate.
  - apply (Hok sampleBytes); reflexivity.
Defined.

(** *** JSON *)

Lemma UnmarshalJSON_null (fw : Framework) (fuel : nat) (dst : UUID) :
  UnmarshalJSON fw fuel dst (Some (str "null")) = Set_ fw fuel dst VNil.
Proof. reflexivity. Qed.

Lemma UnmarshalJSON_other (fw : Framework) (fuel : nat) (dst : UUID) (src : byteslice) :
  default [] src <> str "null" -> len src <> 38 ->
  UnmarshalJSON fw fuel dst src =
  Some (dst, Some (Errorf (str "invalid length for UUID: " ++ strconv.Itoa (len src)))).
Proof.
  intros Hn Hl. unfold UnmarshalJSON.
  destruct (bytes.Compare src (Some (str "null")) =? 0)%Z eqn:E.
  { apply Compare_null in E. contradiction. }
  apply Nat.eqb_neq in Hl. rewrite Hl. reflexivity.
Qed.

Lemma UnmarshalJSON_38 (fw : Framework) (fuel : nat) (dst : UUID)
      (q1 q2 : byte) (s : list byte) :
  length s = 36 ->
  UnmarshalJSON fw fuel dst (Some (q1 :: s ++ [q2])) = Set_ fw fuel dst (VString s).
Proof.
  intros H. unfold UnmarshalJSON.
  destruct (bytes.Compare (Some (q1 :: s ++ [q2])) (Some (str "null")) =? 0)%Z eqn:E.
  { apply Compare_null in E. apply (f_equal (@length byte)) in E. cbn in E.
    rewrite length_app, H in E. discriminate E. }
  assert (len (Some (q1 :: s ++ [q2])) = 38) as Hlen.
  { cbn [len length]. rewrite length_app, H. reflexivity. }
  rewrite Hlen. cbn [Nat.eqb negb]. rewrite <- Hlen.
  change (default [] (Some (q1 :: s ++ [q2]))) with (q1 :: s ++ [q2]).
  cbn [len]. rewrite slice_inner. reflexivity.
Qed.

Lemma UnmarshalJSON_error (fw : Framework) (fuel : nat) (dst dst' : UUID)
      (src : byteslice) (e : error) :
  UnmarshalJSON fw fuel dst src = Some (dst', Some e) -> dst' = dst.
Proof.
  unfold UnmarshalJSON.
  destruct (bytes.Compare src (Some (str "null")) =? 0)%Z; [apply Set_error|].
  destruct (negb (len src =? 38)); [congruence|apply Set_error].
Qed.

(** C4.  [UnmarshalJSON] on the literal [null] performs [Set(nil)] and
    the container becomes invalid.  Any other input that is not exactly
    38 bytes long fails with an error naming the length observed, so
    inputs of 37 and 39 bytes fail.  On 38 bytes the first and the last
    byte are dropped, whatever they are, and the 36 bytes between them
    are given to [Set] as a string. *)
Theorem UnmarshalJSON_cases (fw : Framework) (fuel : nat) (dst : UUID) :
  (UnmarshalJSON fw (S fuel) dst (Some (str "null")) = Set_ fw (S fuel) dst VNil /\
   UnmarshalJSON fw (S fuel) dst (Some (str "null")) = Some (setNil dst, None) /\
   Valid (setNil dst) = false) /\
  (forall src, default [] src <> str "null" -> len src <> 38 ->
     UnmarshalJSON fw (S fuel) dst src =
     Some (dst, Some (Errorf (str "invalid length for UUID: " ++ strconv.Itoa (len src)))) /\
     Contains (str "invalid length for UUID: " ++ strconv.Itoa (len src))
              (strconv.Itoa (len src)) = true) /\
  (forall src, len src = 37 \/ len src = 39 ->
     exists e, UnmarshalJSON fw (S fuel) dst src = Some (dst, Some e)) /\
  (forall (q1 q2 : byte) (s : list byte), length s = 36 ->
     UnmarshalJSON fw (S fuel) dst (Some (q1 :: s ++ [q2])) =
       Set_ fw (S fuel) dst (VString s) /\
     Set_ fw (S fuel) dst (VString s) = Some (setString dst s)).
Proof.
  split; [|split; [|split]].
  - repeat split.
  - intros src Hn Hl. split; [exact (UnmarshalJSON_other fw _ dst src Hn Hl)|].
    apply Contains_suffix.
  - intros src Hl. eexists. apply UnmarshalJSON_other.
    + intros E. apply (f_equal (@length byte)) in E.
      destruct src as [l|]; cbn [default len] in *; cbn in E; lia.
    + lia.
  - intros q1 q2 s H. split; [exact (UnmarshalJSON_38 fw _ dst q1 q2 s H)|reflexivity].
Qed.

Lemma UnmarshalJSON_cases_witness :
  UnmarshalJSON bare 1 zeroUUID (Some unquotedJSON) = Some (sampleUUID, None) /\
  UnmarshalJSON bare 1 sampleUUID (Some (quote :: sampleText)) =
    Some (sampleUUID, Some (Errorf (str "invalid length for UUID: 37"))).
Proof.
  pose proof (UnmarshalJSON_cases bare 0 zeroUUID) as (_ & _ & _ & H38).
  pose proof (UnmarshalJSON_cases bare 0 sampleUUID) as (_ & Hother & _ & _).
  split.
  - unfold unquotedJSON.
    destruct (H38 "<"%byte ">"%byte sampleText eq_refl) as [-> ->]. reflexivity.
  - apply (Hother (Some (quote :: sampleText))); vm_compute; discriminate.
Defined.

(** *** Ingestion of byte sequences *)

(** C8.  [Set] on a byte sequence of exactly 16 bytes stores it and
    marks the container valid; on any other length it fails with a
    length-mismatch error whose message includes the length observed;
    on a nil sequence it makes the container invalid, without error. *)
Theorem Set_byte_slice (fw : Framework) (fuel : nat) (dst : UUID) :
  (forall s, wf dst -> length s = 16 ->
     Set_ fw (S fuel) dst (VBytes (Some s)) = Some (setByteArray dst s, None) /\
     Bytes (setByteArray dst s) = s /\ Valid (setByteArray dst s) = true) /\
  (forall s, length s <> 16 ->
     Set_ fw (S fuel) dst (VBytes (Some s)) =
     Some (dst, Some (Errorf (str "[]byte must be 16 bytes to convert to UUID: "
                                ++ strconv.Itoa (length s)))) /\
     Contains (str "[]byte must be 16 bytes to convert to UUID: "
                 ++ strconv.Itoa (length s))
              (strconv.Itoa (length s)) = true) /\
  (Set_ fw (S fuel) dst (VBytes None) = Some (setNil dst, None) /\
   Valid (setNil dst) = false).
Proof.
  split; [|split].
  - intros s Hwf H. rewrite Set_bytes, (setByteSlice_16 dst s Hwf H). repeat split.
  - intros s H. rewrite Set_bytes, (setByteSlice_other dst s H).
    split; [reflexivity|apply Contains_suffix].
  - split; reflexivity.
Qed.

Lemma Set_byte_slice_witness :
  Set_ bare 1 zeroUUID (VBytes (Some sampleBytes)) = Some (sampleUUID, None) /\
  Get bare sampleUUID = VArray16 sampleBytes /\
  Set_ bare 1 zeroUUID (VBytes (Some [x01; x02])) =
    Some (zeroUUID,
          Some (Errorf (str "[]byte must be 16 bytes to convert to UUID: 2"))).
Proof.
  pose proof (Set_byte_slice bare 0 zeroUUID) as (H16 & Hother & _).
  split; [|split].
  - apply (H16 sampleBytes); reflexivity.
  - reflexivity.
  - apply (Hother [x01; x02]). vm_compute. discriminate.
Defined.

(** *** Errors leave the container alone *)

(** C10.  Whenever [Set], [DecodeText], [DecodeBinary] or
    [UnmarshalJSON] returns an error, the container is exactly as it was
    before the call: same bytes, same validity flag (and same hooks). *)
Theorem error_leaves_container (fw : Framework) (fuel : nat) (dst dst' : UUID) (e : error) :
  (forall src, Set_ fw fuel dst src = Some (dst', Some e) -> dst' = dst) /\
  (forall src, DecodeText dst src = (dst', Some e) -> dst' = dst) /\
  (forall src, DecodeBinary dst src = (dst', Some e) -> dst' = dst) /\
  (forall src, UnmarshalJSON fw fuel dst src = Some (dst', Some e) -> dst' = dst).
Proof.
  split; [|split; [|split]]; intros src H.
  - exact (Set_error fw fuel dst dst' src e H).
  - exact (DecodeText_error dst dst' src e H).
  - exact (DecodeBinary_error dst dst' src e H).
  - exact (UnmarshalJSON_error fw fuel dst dst' src e H).
Qed.

Lemma error_leaves_container_witness :
  Set_ bare 1 sampleUUID (VString badText) =
    Some (sampleUUID, Some (InvalidByteError "g"%byte)) /\
  DecodeText sampleUUID (Some badText) = (sampleUUID, Some (InvalidByteError "g"%byte)) /\
  DecodeBinary sampleUUID (Some [x01]) =
    (sampleUUID, Some (Errorf (str "invalid length for UUID: 1"))) /\
  UnmarshalJSON bare 1 sampleUUID (Some (quote :: badText ++ [quote])) =
    Some (sampleUUID, Some (InvalidByteError "g"%byte)).
Proof.
  split; [|split; [|split]].
  - destruct (Set_ bare 1 sampleUUID (VString badText)) as [[d' [e|]]|] eqn:E;
      try (vm_compute in E; discriminate E).
    rewrite (proj1 (error_leaves_container bare 1 sampleUUID d' e) _ E).
    vm_compute in E. congruence.
  - destruct (DecodeText sampleUUID (Some badText)) as [d' [e|]] eqn:E;
      try (vm_compute in E; discriminate E).
    rewrite (proj1 (proj2 (error_leaves_container bare 1 sampleUUID d' e)) _ E).
    vm_compute in E. congruence.
  - destruct (DecodeBinary sampleUUID (Some [x01])) as [d' [e|]] eqn:E;
      try (vm_compute in E; discriminate E).
    rewrite (proj1 (proj2 (proj2 (error_leaves_container bare 1 sampleUUID d' e))) _ E).
    vm_compute in E. vm_compute. congruence.
  - destruct (UnmarshalJSON bare 1 sampleUUID (Some (quote :: badText ++ [quote])))
      as [[d' [e|]]|] eqn:E; try (vm_compute in E; discriminate E).
    rewrite (proj2 (proj2 (proj2 (error_leaves_container bare 1 sampleUUID d' e))) _ E).
    vm_compute in E. congruence.
Defined.

(** *** Wire round trip *)

Lemma append_nonempty (buf : byteslice) (xs : list byte) :
  xs <> [] -> append buf xs = Some (default [] buf ++ xs).
Proof. intros H. destruct buf, xs; try contradiction; reflexivity. Qed.

Lemma setByteArray_clone (v : UUID) :
  Valid v = true -> setByteArray (NewTypeValue v) (Bytes v) = v.
Proof. destruct v as [b [|] w g]; [reflexivity|discriminate]. Qed.

Lemma DecodeText_encodeUUID (dst : UUID) (b : list byte) :
  length b = 16 -> DecodeText dst (Some (encodeUUID b)) = (setByteArray dst b, None).
Proof.
  intros H. rewrite (DecodeText_36 dst (encodeUUID b) (encodeUUID_length b H)).
  unfold setString. rewrite (parseUUID_encodeUUID b H). reflexivity.
Qed.

(** C5.  For every valid container [v]: the text encoder appends the
    canonical text to the buffer and the text decoder turns that text
    into a valid container with [v]'s bytes; the binary encoder appends
    the 16 bytes and the binary decoder turns them into a valid container
    with [v]'s bytes.  Decoded into a fresh clone of [v], the result is
    [v] itself. *)
Theorem wire_roundtrip (v dst : UUID) (buf : byteslice) :
  Valid v = true -> wf v ->
  (exists text,
     EncodeText v None = (Some text, None) /\
     EncodeText v buf = (Some (default [] buf ++ text), None) /\
     DecodeText dst (Some text) = (setByteArray dst (Bytes v), None) /\
     DecodeText (NewTypeValue v) (Some text) = (v, None)) /\
  (exists bin,
     EncodeBinary v None = (Some bin, None) /\
     EncodeBinary v buf = (Some (default [] buf ++ bin), None) /\
     (wf dst -> DecodeBinary dst (Some bin) = (setByteArray dst (Bytes v), None)) /\
     DecodeBinary (NewTypeValue v) (Some bin) = (v, None)) /\
  Bytes (setByteArray dst (Bytes v)) = Bytes v /\
  Valid (setByteArray dst (Bytes v)) = Valid v.
Proof.
  intros Hv Hwf. unfold wf in Hwf.
  assert (encodeUUID (Bytes v) <> []) as Htext.
  { intros E. apply (f_equal (@length byte)) in E.
    rewrite (encodeUUID_length _ Hwf) in E. discriminate E. }
  assert (Bytes v <> []) as Hbin.
  { intros E. rewrite E in Hwf. discriminate Hwf. }
  split; [|split; [|split]].
  - exists (encodeUUID (Bytes v)). unfold EncodeText. rewrite Hv. cbn [negb].
    rewrite !(append_nonempty _ _ Htext). repeat split.
    + exact (DecodeText_encodeUUID dst _ Hwf).
    + rewrite (DecodeText_encodeUUID _ _ Hwf), (setByteArray_clone v Hv). reflexivity.
  - exists (Bytes v). unfold EncodeBinary. rewrite Hv. cbn [negb].
    rewrite !(append_nonempty _ _ Hbin). repeat split.
    + intros Hd. exact (DecodeBinary_16 dst _ Hd Hwf).
    + rewrite (DecodeBinary_16 (NewTypeValue v) _ eq_refl Hwf), (setByteArray_clone v Hv).
      reflexivity.
  - reflexivity.
  - rewrite Hv. reflexivity.
Qed.

Lemma wire_roundtrip_witness :
  Valid sampleUUID = true /\ wf sampleUUID /\
  DecodeText zeroUUID (Some sampleText) = (sampleUUID, None) /\
  DecodeBinary zeroUUID (Some sampleBytes) = (sampleUUID, None).
Proof.
  split; [reflexivity|]. split; [reflexivity|].
  destruct (wire_roundtrip sampleUUID zeroUUID None eq_refl eq_refl)
    as ((text & Ht & _ & Hdt & _) & (bin & Hb & _ & Hdb & _) & _).
  vm_compute in Ht. vm_compute in Hb.
  inversion Ht; subst text. inversion Hb; subst bin.
  split; [exact Hdt|exact (Hdb eq_refl)].
Defined.

(** *** Null *)

(** C7, as the code has it.  [Set(nil)] succeeds and leaves the
    container invalid with zero bytes.  [Get] on the result yields the
    nil sentinel when no [Getter] hook is installed; with a hook
    installed, [Get] yields whatever the hook returns.  An invalid
    container encodes to no value in both wire forms (nil buffer, nil
    error) and [MarshalJSON] returns exactly the 4 bytes [null]. *)
Theorem null_handling (fw : Framework) (fuel : nat) (dst v : UUID) (buf : byteslice) :
  (exists dst',
     Set_ fw (S fuel) dst VNil = Some (dst', None) /\
     Valid dst' = false /\ Bytes dst' = zero16 /\
     (Getter dst = None -> Get fw dst' = VNil) /\
     (forall g, Getter dst = Some g -> Get fw dst' = callGetter fw g dst')) /\
  (Valid v = false ->
     EncodeText v buf = (None, None) /\
     EncodeBinary v buf = (None, None) /\
     MarshalJSON v = (Some (str "null"), None)) /\
  length (str "null") = 4.
Proof.
  split; [|split].
  - exists (setNil dst). rewrite Set_nil. repeat split.
    + intros Hg. unfold Get. cbn [setNil Getter Valid]. rewrite Hg. reflexivity.
    + intros g Hg. unfold Get. cbn [setNil Getter]. rewrite Hg. reflexivity.
  - intros Hv. unfold EncodeText, EncodeBinary, MarshalJSON. rewrite Hv. repeat split.
  - reflexivity.
Qed.

Lemma null_handling_witness :
  Set_ bare 1 sampleUUID VNil = Some (zeroUUID, None) /\
  Get bare zeroUUID = VNil /\
  MarshalJSON zeroUUID = (Some (str "null"), None).
Proof.
  destruct (null_handling bare 0 sampleUUID zeroUUID None)
    as ((dst' & Hset & _ & _ & Hget & _) & Henc & _).
  vm_compute in Hset. inversion Hset; subst dst'.
  split; [reflexivity|]. split; [exact (Hget eq_refl)|].
  exact (proj2 (proj2 (Henc eq_refl))).
Defined.

(** C7 as stated fails on the code: with a [Getter] hook installed,
    [Set(nil)] followed by [Get()] yields the hook's value, here a
    string, and not the nil sentinel. *)
Lemma Get_after_Set_nil_with_getter :
  exists dst',
    Set_ textGetter 1 withGetter VNil = Some (dst', None) /\
    Get textGetter dst' = VString (str "00000000-0000-0000-0000-000000000000") /\
    Get textGetter dst' <> VNil.
Proof.
  eexists. split; [reflexivity|]. split; [vm_compute; reflexivity|].
  vm_compute. discriminate.
Qed.

(** *** Extraction into a destination *)

Lemma resolveDecoder_no_hook (fw : Framework) (src : UUID) (v : nat) :
  UUIDDecoderWrapper src = None -> resolveDecoder fw src (DStringPtr v) = None.
Proof. intros H. unfold resolveDecoder. rewrite H. reflexivity. Qed.

(** An error out of [AssignTo] was returned by a decoder capability
    object it delegated to or, for an invalid container, by the
    null-assignment helper; the heap it was given reached that callee
    untouched. *)
Lemma AssignTo_error (fw : Framework) (src : UUID) (h h' : heap) (e : error) (fuel : nat) :
  forall dst,
    AssignTo fw fuel src dst h = Some (h', Some e) ->
    (exists dst' d, resolveDecoder fw src dst' = Some d /\
                    DecodeUUID fw d src h = (h', Some e)) \/
    (Valid src = false /\ exists dst', NullAssignTo fw dst' h = (h', Some e)).
Proof.
  induction fuel as [|fuel IH]; intros dst H; [discriminate H|].
  cbn [AssignTo] in H.
  destruct (resolveDecoder fw src dst) as [d|] eqn:Ed.
  { left. exists dst, d. split; [exact Ed|congruence]. }
  destruct (Valid src) eqn:Ev; cbn [negb] in H.
  - destruct dst as [v|v|v|id]; try discriminate H.
    destruct (GetAssignToDstType fw (DObj id)) as [nextDst|]; [|discriminate H].
    exact (IH nextDst H).
  - right. split; [reflexivity|]. exists dst. congruence.
Qed.

(** C6, as the code has it.  Take a valid container and a destination
    for which no decoder capability is resolved (the destination is no
    decoder itself and the [UUIDDecoderWrapper] hook is absent or offers
    none).  Into a pointer to string, [AssignTo] writes the canonical
    36-character text and returns no error.  Into a destination of no
    known shape for which the framework offers no alternative, it
    returns no error and leaves the heap as it was.  Whenever [AssignTo]
    returns an error, the error is the result of a delegated decoder's
    [DecodeUUID] or, for an invalid container, of [NullAssignTo]. *)
Theorem AssignTo_cases (fw : Framework) (fuel : nat) (src : UUID) (h : heap) :
  (forall v, Valid src = true -> resolveDecoder fw src (DStringPtr v) = None ->
     AssignTo fw (S fuel) src (DStringPtr v) h =
       Some (<[v := CString (encodeUUID (Bytes src))]> h, None) /\
     (<[v := CString (encodeUUID (Bytes src))]> h) !! v =
       Some (CString (encodeUUID (Bytes src)))) /\
  (forall v, UUIDDecoderWrapper src = None ->
     resolveDecoder fw src (DStringPtr v) = None) /\
  (wf src -> encodeUUID (Bytes src) = spec_format (Bytes src) /\
             length (encodeUUID (Bytes src)) = 36) /\
  (forall id, Valid src = true -> resolveDecoder fw src (DObj id) = None ->
     GetAssignToDstType fw (DObj id) = None ->
     AssignTo fw (S fuel) src (DObj id) h = Some (h, None)) /\
  (forall dst h' e, AssignTo fw fuel src dst h = Some (h', Some e) ->
     (exists dst' d, resolveDecoder fw src dst' = Some d /\
                     DecodeUUID fw d src h = (h', Some e)) \/
     (Valid src = false /\ exists dst', NullAssignTo fw dst' h = (h', Some e))).
Proof.
  split; [|split; [|split; [|split]]].
  - intros v Hv Hd. cbn [AssignTo]. rewrite Hd, Hv. cbn [negb].
    split; [reflexivity|apply lookup_insert_eq].
  - intros v. exact (resolveDecoder_no_hook fw src v).
  - intros Hwf. split; [exact (encodeUUID_spec_format _ Hwf)|exact (encodeUUID_length _ Hwf)].
  - intros id Hv Hd Hn. cbn [AssignTo]. rewrite Hd, Hv, Hn. reflexivity.
  - intros dst h' e. exact (AssignTo_error fw src h h' e fuel dst).
Qed.

Lemma AssignTo_cases_witness :
  AssignTo bare 1 sampleUUID (DStringPtr 0) {[ 0 := CString [] ]} =
    Some ({[ 0 := CString sampleText ]}, None) /\
  AssignTo bare 1 sampleUUID (DObj 7) {[ 0 := CString [] ]} =
    Some ({[ 0 := CString [] ]}, None).
Proof.
  pose proof (AssignTo_cases bare 0 sampleUUID {[ 0 := CString [] ]})
    as (Hstr & _ & _ & Hobj & _).
  split.
  - rewrite (proj1 (Hstr 0 eq_refl eq_refl)).
    rewrite insert_singleton_eq. reflexivity.
  - exact (Hobj 7 eq_refl eq_refl eq_refl).
Defined.

(** C6 as stated fails on the code: with a [UUIDDecoderWrapper] hook
    that offers a decoder for the destination, [AssignTo] of a valid
    container into a pointer to string delegates to that decoder; the
    string is left as it was and the decoder's error is returned. *)
Lemma AssignTo_string_pointer_with_wrapper :
  AssignTo refusingWrapper 1 withWrapper (DStringPtr 0) {[ 0 := CString [] ]} =
    Some ({[ 0 := CString [] ]}, Some (ForeignError 1)) /\
  ({[ 0 := CString [] ]} : heap) !! 0 <> Some (CString (encodeUUID (Bytes withWrapper))).
Proof.
  split; [reflexivity|].
  rewrite lookup_singleton_eq. vm_compute. discriminate.
Qed.

(** *** Unwrapping in [Set] *)


(** The comparison at work: different values that compare without
    panic, the same object compared with itself, and a panic. *)
Lemma notEqual_differ (fw : Framework) (v : value) (id : nat) :
  v <> VObj id -> (forall id2, v = VObj id2 -> comparePanics fw id2 id = false) ->
  notEqual fw v (VObj id) = Some true.
Proof.
  intros Hne Hsafe. destruct v as [|a|s|s|p|id2]; try reflexivity.
  cbn [notEqual]. rewrite (Hsafe id2 eq_refl).
  destruct (decide (id2 = id)) as [->|_]; [contradiction|reflexivity].
Qed.



Lemma Set_unwrap_Get (fw : Framework) (fuel : nat) (dst : UUID) (id : nat) (v : value) :
  methodGet fw id = Some v -> v <> VObj id ->
  (forall id2, v = VObj id2 -> comparePanics fw id2 id = false) ->
  Set_ fw (S fuel) dst (VObj id) = Set_ fw fuel dst v.
Proof.
  intros Hg Hne Hsafe. cbn [Set_ callGet].
  rewrite Hg, (notEqual_differ fw v id Hne Hsafe). reflexivity.
Qed.











(** ** Further properties of [uuid.go] *)

(** *** Parsing *)

Lemma copy_length {A : Type} (dst src : list A) : length (copy dst src) = length dst.
Proof. unfold copy. rewrite length_app, length_firstn, length_skipn. lia. Qed.

Lemma Decode_ok_length (l out : list byte) :
  hex.Decode l = (out, None) -> 2 * length out = length l.
Proof.
  revert out. induction l as [| a | a b l IH] using pairs_ind; intros out H.
  - inversion H. reflexivity.
  - cbn [hex.Decode] in H. destruct (hex.fromHexChar a); discriminate H.
  - cbn [hex.Decode] in H.
    destruct (hex.fromHexChar a); [|discriminate H].
    destruct (hex.fromHexChar b); [|discriminate H].
    destruct (hex.Decode l) as [out' err'] eqn:El. inversion H; subst.
    cbn [length]. rewrite <- (IH out' eq_refl). lia.
Qed.

(** What a successful parse of 32 characters went through. *)
Lemma parseUUID_32_ok (src : gostring) (b : list byte) :
  length src = 32 -> parseUUID src = (b, None) ->
  hex.Decode src = (b, None) /\ length b = 16.
Proof.
  intros H Hp. rewrite (parseUUID_32 src H) in Hp. unfold hex.DecodeString in Hp.
  destruct (hex.Decode src) as [buf [e|]] eqn:E; [discriminate Hp|].
  pose proof (Decode_ok_length src buf E) as Hl.
  rewrite copy_same_length in Hp by (change (length zero16) with 16; lia).
  inversion Hp; subst. split; [reflexivity|lia].
Qed.

Lemma parseUUID_result (src : gostring) :
  length (fst (parseUUID src)) = 16 /\
  (forall e, snd (parseUUID src) = Some e -> fst (parseUUID src) = zero16).
Proof.
  assert (forall t : gostring,
            let r := match hex.DecodeString t with
                     | (_, Some e) => (zero16, Some e)
                     | (buf, None) => (copy zero16 buf, None)
                     end in
            length (fst r) = 16 /\ (forall e, snd r = Some e -> fst r = zero16)) as Hcommon.
  { intros t. destruct (hex.DecodeString t) as [buf [e|]]; cbn [fst snd].
    - split; reflexivity.
    - split; [apply copy_length|discriminate]. }
  unfold parseUUID.
  destruct (length src =? 36); [exact (Hcommon (dropDashes src))|].
  destruct (length src =? 32); [exact (Hcommon src)|].
  split; reflexivity.
Qed.

(** X1.  Whatever the input, [parseUUID] returns an array of 16 bytes,
    and with an error the array is the zero array. *)
Theorem parseUUID_array (src : gostring) :
  length (fst (parseUUID src)) = 16 /\
  (forall e, snd (parseUUID src) = Some e -> fst (parseUUID src) = zero16).
Proof. exact (parseUUID_result src). Qed.

Lemma fromHexChar_upper_hi (b : byte) :
  hex.fromHexChar (toUpper (fmt.hexdigit (N.shiftr (Byte.to_N b) 4))) =
  Some (N.shiftr (Byte.to_N b) 4).
Proof. destruct b; reflexivity. Qed.

Lemma fromHexChar_upper_lo (b : byte) :
  hex.fromHexChar (toUpper (fmt.hexdigit (N.land (Byte.to_N b) 15))) =
  Some (N.land (Byte.to_N b) 15).
Proof. destruct b; reflexivity. Qed.

Lemma Decode_upper_Sprintf_x (l : list byte) :
  hex.Decode (map toUpper (fmt.Sprintf_x l)) = (l, None).
Proof.
  induction l as [|b l IH]; [reflexivity|].
  rewrite Sprintf_x_cons. cbn [map hex.Decode].
  rewrite fromHexChar_upper_hi, fromHexChar_upper_lo, IH, byte_of_nibbles. reflexivity.
Qed.

Lemma upper_encodeUUID_dropDashes (b : list byte) :
  length b = 16 ->
  dropDashes (map toUpper (encodeUUID b)) = map toUpper (fmt.Sprintf_x b).
Proof. intros H. spell16 b H. reflexivity. Qed.

(** X2.  [parseUUID] reads hexadecimal digits in either case: the
    canonical text of a 16-byte array put in upper case parses to the
    same array. *)
Theorem parseUUID_upper_case (b : list byte) :
  length b = 16 -> parseUUID (map toUpper (encodeUUID b)) = (b, None).
Proof.
  intros H.
  assert (length (map toUpper (encodeUUID b)) = 36) as H36.
  { rewrite length_map. exact (encodeUUID_length b H). }
  rewrite (parseUUID_36 _ H36), (parseUUID_32 _ (dropDashes_length _ H36)).
  rewrite (upper_encodeUUID_dropDashes b H). unfold hex.DecodeString.
  rewrite Decode_upper_Sprintf_x.
  rewrite copy_same_length; [reflexivity|]. rewrite H. reflexivity.
Qed.

Lemma parseUUID_upper_case_witness :
  length sampleBytes = 16 /\ parseUUID upperText = (sampleBytes, None).
Proof.
  split; [reflexivity|]. exact (parseUUID_upper_case sampleBytes eq_refl).
Defined.

(** X3.  The 32-character form without dashes round-trips as well:
    the [%x] rendering of a 16-byte array parses to that array. *)
Theorem parseUUID_undashed (b : list byte) :
  length b = 16 -> parseUUID (fmt.Sprintf_x b) = (b, None).
Proof.
  intros H.
  assert (length (fmt.Sprintf_x b) = 32) as H32.
  { rewrite Sprintf_x_length, H. reflexivity. }
  rewrite (parseUUID_32 _ H32). unfold hex.DecodeString. rewrite Decode_Sprintf_x.
  rewrite copy_same_length; [reflexivity|]. rewrite H. reflexivity.
Qed.

Lemma parseUUID_undashed_witness :
  length sampleBytes = 16 /\
  parseUUID (str "a0eebc999c0b4ef8bb6d6bb9bd380a11") = (sampleBytes, None).
Proof.
  split; [reflexivity|]. exact (parseUUID_undashed sampleBytes eq_refl).
Defined.

(** X4.  [encodeUUID] is injective on 16-byte arrays: two different
    arrays never have the same text. *)
Theorem encodeUUID_injective (b1 b2 : list byte) :
  length b1 = 16 -> length b2 = 16 -> b1 <> b2 -> encodeUUID b1 <> encodeUUID b2.
Proof.
  intros H1 H2 Hne E. apply Hne.
  pose proof (parseUUID_encodeUUID b1 H1) as P1.
  rewrite E, (parseUUID_encodeUUID b2 H2) in P1. congruence.
Qed.

Lemma encodeUUID_injective_witness : encodeUUID sampleBytes <> encodeUUID otherBytes.
Proof.
  apply (encodeUUID_injective sampleBytes otherBytes); [reflexivity|reflexivity|].
  discriminate.
Defined.

(** A pair of digits decodes to the byte whose two lower-case digits are
    the pair in lower case. *)
Lemma fromHexChar_pair (a b : byte) (x y : N) :
  hex.fromHexChar a = Some x -> hex.fromHexChar b = Some y ->
  fmt.Sprintf_x [hex.byte_of_N (N.lor (N.shiftl x 4) y)] = [toLower a; toLower b].
Proof.
  intros Ha Hb.
  destruct a; vm_compute in Ha; try discriminate Ha; injection Ha as <-;
    destruct b; vm_compute in Hb; try discriminate Hb; injection Hb as <-;
    reflexivity.
Qed.

Lemma Decode_ok_lower (l out : list byte) :
  hex.Decode l = (out, None) -> fmt.Sprintf_x out = map toLower l.
Proof.
  revert out. induction l as [| a | a b l IH] using pairs_ind; intros out H.
  - inversion H. reflexivity.
  - cbn [hex.Decode] in H. destruct (hex.fromHexChar a); discriminate H.
  - cbn [hex.Decode] in H.
    destruct (hex.fromHexChar a) as [x|] eqn:Ea; [|discriminate H].
    destruct (hex.fromHexChar b) as [y|] eqn:Eb; [|discriminate H].
    destruct (hex.Decode l) as [out' err'] eqn:El. inversion H; subst.
    change (fmt.Sprintf_x (hex.byte_of_N (N.lor (N.shiftl x 4) y) :: out'))
      with (fmt.Sprintf_x [hex.byte_of_N (N.lor (N.shiftl x 4) y)] ++ fmt.Sprintf_x out').
    rewrite (fromHexChar_pair a b x y Ea Eb), (IH out' eq_refl). reflexivity.
Qed.

Lemma encodeUUID_insertDashes (b : list byte) :
  length b = 16 -> encodeUUID b = insertDashes (fmt.Sprintf_x b).
Proof. intros H. spell16 b H. reflexivity. Qed.

Lemma insertDashes_lower_dropDashes (src : gostring) :
  length src = 36 -> insertDashes (map toLower (dropDashes src)) = canonical36 src.
Proof.
  intros H.
  do 36 (destruct src as [|? src]; [discriminate H|]).
  destruct src; [|discriminate H].
  reflexivity.
Qed.

(** X5.  Parsing and formatting again brings a 36-character text to
    canonical shape: when [parseUUID] accepts it, the text of the parsed
    array is the input with its digits in lower case and a dash at each
    of the four positions. *)
Theorem format_parse_canonical (src : gostring) (b : list byte) :
  length src = 36 -> parseUUID src = (b, None) -> encodeUUID b = canonical36 src.
Proof.
  intros H Hp. rewrite (parseUUID_36 src H) in Hp.
  destruct (parseUUID_32_ok _ b (dropDashes_length src H) Hp) as [Hd Hb].
  rewrite (encodeUUID_insertDashes b Hb), (Decode_ok_lower _ b Hd).
  exact (insertDashes_lower_dropDashes src H).
Qed.

Lemma format_parse_canonical_witness :
  encodeUUID sampleBytes = canonical36 undashedText /\
  canonical36 undashedText = sampleText /\
  encodeUUID sampleBytes = canonical36 upperText.
Proof.
  split; [|split].
  - apply (format_parse_canonical undashedText sampleBytes); reflexivity.
  - reflexivity.
  - apply (format_parse_canonical upperText sampleBytes); reflexivity.
Defined.

(** *** Ingestion and extraction *)

Lemma setNil_hooks (d1 d2 : UUID) : sameHooks d1 d2 -> setNil d1 = setNil d2.
Proof. intros [Hw Hg]. unfold setNil. rewrite Hw, Hg. reflexivity. Qed.

Lemma setByteArray_hooks (d1 d2 : UUID) (a : list byte) :
  sameHooks d1 d2 -> setByteArray d1 a = setByteArray d2 a.
Proof. intros [Hw Hg]. unfold setByteArray. rewrite Hw, Hg. reflexivity. Qed.

Lemma setString_encodeUUID (dst : UUID) (b : list byte) :
  length b = 16 -> setString dst (encodeUUID b) = (setByteArray dst b, None).
Proof. intros H. unfold setString. rewrite (parseUUID_encodeUUID b H). reflexivity. Qed.

Lemma setString_ok (dst dst' : UUID) (s : gostring) :
  setString dst s = (dst', None) -> dst' = setByteArray dst (fst (parseUUID s)).
Proof.
  unfold setString. destruct (parseUUID s) as [uuid [e|]]; [discriminate|].
  intros H. inversion H. reflexivity.
Qed.

Lemma Get_setByteArray (fw : Framework) (dst : UUID) (b : list byte) :
  Getter dst = None -> Get fw (setByteArray dst b) = VArray16 b.
Proof. intros Hg. unfold Get. cbn [setByteArray Getter Valid Bytes]. rewrite Hg. reflexivity. Qed.

(** X6.  What goes in comes out: after [Set] on a 16-byte array, on
    its canonical text, or on a pointer to that text, [Set] returns no
    error and [Get] (with no [Getter] hook) returns the array. *)
Theorem Set_then_Get (fw : Framework) (fuel : nat) (dst : UUID) (b : list byte) :
  length b = 16 -> Getter dst = None ->
  forall src,
    src = VArray16 b \/ src = VString (encodeUUID b) \/
    src = VStringPtr (Some (encodeUUID b)) ->
    exists dst',
      Set_ fw (S fuel) dst src = Some (dst', None) /\
      Get fw dst' = VArray16 b /\ Valid dst' = true /\ sameHooks dst' dst.
Proof.
  intros H Hg src Hsrc. exists (setByteArray dst b).
  split; [|split; [exact (Get_setByteArray fw dst b Hg)|split; [reflexivity|split; reflexivity]]].
  destruct Hsrc as [E|[E|E]]; subst src; cbn [Set_ callGet];
    rewrite ?(setString_encodeUUID dst b H); reflexivity.
Qed.

Lemma Set_then_Get_witness :
  exists dst',
    Set_ bare 1 zeroUUID (VStringPtr (Some sampleText)) = Some (dst', None) /\
    Get bare dst' = VArray16 sampleBytes /\ Valid dst' = true /\ sameHooks dst' zeroUUID.
Proof.
  apply (Set_then_Get bare 0 zeroUUID sampleBytes eq_refl eq_refl).
  right. right. reflexivity.
Defined.

(** X7.  [Set] on what [Get] returns copies a container: with no
    [Getter] hook on [u], [Set(u.Get())] gives [dst] the bytes and the
    validity of [u]; the same holds one level up, for an object whose
    [Get] method returns [u.Get()]. *)
Theorem Set_of_Get_copies (fw : Framework) (fuel : nat) (dst u : UUID) :
  Getter u = None ->
  let copied := if Valid u then setByteArray dst (Bytes u) else setNil dst in
  Set_ fw (S fuel) dst (Get fw u) = Some (copied, None) /\
  (forall id, methodGet fw id = Some (Get fw u) ->
     Set_ fw (S (S fuel)) dst (VObj id) = Some (copied, None)).
Proof.
  intros Hg copied.
  assert (Set_ fw (S fuel) dst (Get fw u) = Some (copied, None)) as Hset.
  { unfold Get, copied. rewrite Hg. destruct (Valid u); reflexivity. }
  split; [exact Hset|].
  intros id Hm.
  rewrite (Set_unwrap_Get fw (S fuel) dst id (Get fw u) Hm); [exact Hset| |];
    unfold Get; rewrite Hg; destruct (Valid u); discriminate.
Qed.

Lemma Set_of_Get_copies_witness :
  Set_ carriers 1 zeroUUID (Get carriers sampleUUID) = Some (sampleUUID, None) /\
  Set_ carriers 2 otherUUID (VObj 0) = Some (sampleUUID, None) /\
  Set_ carriers 2 otherUUID (VObj 1) = Some (zeroUUID, None).
Proof.
  split; [|split].
  - exact (proj1 (Set_of_Get_copies carriers 0 zeroUUID sampleUUID eq_refl)).
  - exact (proj2 (Set_of_Get_copies carriers 0 otherUUID sampleUUID eq_refl) 0 eq_refl).
  - exact (proj2 (Set_of_Get_copies carriers 0 otherUUID zeroUUID eq_refl) 1 eq_refl).
Defined.

(** A successful [Set] overwrites in full. *)
Lemma Set_overwrites (fw : Framework) (d1 d2 : UUID) (fuel : nat) :
  wf d1 -> wf d2 -> sameHooks d1 d2 ->
  forall src r, Set_ fw fuel d1 src = Some (r, None) -> Set_ fw fuel d2 src = Some (r, None).
Proof.
  intros W1 W2 Hh.
  induction fuel as [|fuel IH]; intros src r H; [discriminate H|].
  cbn [Set_] in *.
  destruct src as [|a|s|s|[s|]|id]; cbn [callGet] in *.
  - rewrite <- (setNil_hooks d1 d2 Hh). exact H.
  - rewrite <- (setByteArray_hooks d1 d2 a Hh). exact H.
  - destruct s as [s|].
    + destruct (Nat.eq_dec (length s) 16) as [E|E].
      * rewrite (setByteSlice_16 d1 s W1 E) in H. rewrite (setByteSlice_16 d2 s W2 E).
        rewrite <- (setByteArray_hooks d1 d2 s Hh). exact H.
      * rewrite (setByteSlice_other d1 s E) in H. discriminate H.
    + cbn [setByteSlice] in *. rewrite <- (setNil_hooks d1 d2 Hh). exact H.
  - unfold setString in *. destruct (parseUUID s) as [uuid [e|]]; [discriminate H|].
    rewrite <- (setByteArray_hooks d1 d2 uuid Hh). exact H.
  - unfold setString in *. destruct (parseUUID s) as [uuid [e|]]; [discriminate H|].
    rewrite <- (setByteArray_hooks d1 d2 uuid Hh). exact H.
  - rewrite <- (setNil_hooks d1 d2 Hh). exact H.
  - destruct (methodGet fw id) as [value2|].
    + destruct (notEqual fw value2 (VObj id)) as [[|]|].
      * exact (IH _ _ H).
      * destruct (underlyingUUIDType fw id); [exact (IH _ _ H)|discriminate H].
      * discriminate H.
    + destruct (underlyingUUIDType fw id); [exact (IH _ _ H)|discriminate H].
Qed.

(** X8.  A successful [Set], [DecodeText], [DecodeBinary] or
    [UnmarshalJSON] overwrites the container in full: the result depends
    on the input and the hooks only, not on the bytes or the validity the
    container had before. *)
Theorem success_overwrites (fw : Framework) (fuel : nat) (d1 d2 r : UUID) :
  wf d1 -> wf d2 -> sameHooks d1 d2 ->
  (forall src, Set_ fw fuel d1 src = Some (r, None) -> Set_ fw fuel d2 src = Some (r, None)) /\
  (forall src, DecodeText d1 src = (r, None) -> DecodeText d2 src = (r, None)) /\
  (forall src, DecodeBinary d1 src = (r, None) -> DecodeBinary d2 src = (r, None)) /\
  (forall src, UnmarshalJSON fw fuel d1 src = Some (r, None) ->
               UnmarshalJSON fw fuel d2 src = Some (r, None)).
Proof.
  intros W1 W2 Hh. split; [|split; [|split]]; intros src H.
  - exact (Set_overwrites fw d1 d2 fuel W1 W2 Hh src r H).
  - destruct src as [s|]; cbn [DecodeText] in *.
    + destruct (negb (length s =? 36)); [discriminate H|].
      destruct (parseUUID s) as [buf [e|]]; [discriminate H|].
      rewrite <- (setByteArray_hooks d1 d2 buf Hh). exact H.
    + rewrite <- (setNil_hooks d1 d2 Hh). exact H.
  - destruct src as [s|]; cbn [DecodeBinary] in *.
    + destruct (Nat.eq_dec (length s) 16) as [E|E].
      * rewrite E in *. cbn [Nat.eqb negb] in *.
        rewrite (setByteSlice_16 d1 s W1 E) in H. rewrite (setByteSlice_16 d2 s W2 E).
        rewrite <- (setByteArray_hooks d1 d2 s Hh). exact H.
      * apply Nat.eqb_neq in E. rewrite E in H. discriminate H.
    + rewrite <- (setNil_hooks d1 d2 Hh). exact H.
  - unfold UnmarshalJSON in *.
    destruct (bytes.Compare src (Some (str "null")) =? 0)%Z.
    + exact (Set_overwrites fw d1 d2 fuel W1 W2 Hh _ r H).
    + destruct (negb (len src =? 38)); [discriminate H|].
      exact (Set_overwrites fw d1 d2 fuel W1 W2 Hh _ r H).
Qed.

Lemma success_overwrites_witness :
  DecodeBinary otherUUID (Some sampleBytes) = (sampleUUID, None) /\
  Set_ bare 1 otherUUID (VString sampleText) = Some (sampleUUID, None).
Proof.
  destruct (success_overwrites bare 1 zeroUUID otherUUID sampleUUID)
    as (Hset & _ & Hbin & _); try reflexivity.
  { split; reflexivity. }
  split; [apply Hbin|apply Hset]; reflexivity.
Defined.

(** *** The 16-byte invariant *)

Lemma setString_wf (dst : UUID) (s : gostring) : wf dst -> wf (fst (setString dst s)).
Proof.
  intros W. unfold setString.
  pose proof (proj1 (parseUUID_result s)) as Hl.
  destruct (parseUUID s) as [uuid [e|]]; [exact W|exact Hl].
Qed.

Lemma setByteSlice_wf (dst : UUID) (s : byteslice) : wf dst -> wf (fst (setByteSlice dst s)).
Proof.
  intros W. destruct s as [s|]; [|reflexivity]. cbn [setByteSlice].
  destruct (negb (length s =? 16)); [exact W|].
  cbn [fst]. unfold wf. cbn [Bytes]. rewrite copy_length. exact W.
Qed.

Lemma DecodeText_wf (dst : UUID) (src : byteslice) : wf dst -> wf (fst (DecodeText dst src)).
Proof.
  intros W. destruct src as [s|]; [|reflexivity]. cbn [DecodeText].
  destruct (negb (length s =? 36)); [exact W|]. exact (setString_wf dst s W).
Qed.

Lemma Set_wf (fw : Framework) (dst : UUID) (fuel : nat) :
  wfFramework fw -> wf dst ->
  forall src r, wfValue src -> Set_ fw fuel dst src = Some r -> wf (fst r).
Proof.
  intros [Hget Hund] W.
  induction fuel as [|fuel IH]; intros src r Hsrc H; [discriminate H|].
  cbn [Set_] in H.
  destruct src as [|a|s|s|[s|]|id]; cbn [callGet] in H;
    try (injection H as <-).
  - reflexivity.
  - exact Hsrc.
  - exact (setByteSlice_wf dst s W).
  - exact (setString_wf dst s W).
  - exact (setString_wf dst s W).
  - reflexivity.
  - destruct (methodGet fw id) as [value2|] eqn:Hm.
    + destruct (notEqual fw value2 (VObj id)) as [[|]|].
      * exact (IH value2 r (Hget id value2 Hm) H).
      * destruct (underlyingUUIDType fw id) as [o|] eqn:Hu.
        -- exact (IH o r (Hund id o Hu) H).
        -- injection H as <-. exact W.
      * discriminate H.
    + destruct (underlyingUUIDType fw id) as [o|] eqn:Hu.
      * exact (IH o r (Hund id o Hu) H).
      * injection H as <-. exact W.
Qed.

(** X9.  The container always holds 16 bytes: starting from a
    well-formed container, whatever [Set] (on well-formed sources),
    [DecodeText], [DecodeBinary], [UnmarshalJSON] or [Scan] returns,
    with or without error, is a container of 16 bytes; so is a fresh
    clone. *)
Theorem sixteen_bytes_kept (fw : Framework) (typeOf : nat -> gostring)
        (fuel : nat) (dst : UUID) :
  wfFramework fw -> wf dst ->
  (forall src r, wfValue src -> Set_ fw fuel dst src = Some r -> wf (fst r)) /\
  (forall src, wf (fst (DecodeText dst src))) /\
  (forall src, wf (fst (DecodeBinary dst src))) /\
  (forall src r, UnmarshalJSON fw fuel dst src = Some r -> wf (fst r)) /\
  (forall src, wf (fst (Scan typeOf dst src))) /\
  wf (NewTypeValue dst).
Proof.
  intros Hfw W. split; [|split; [|split; [|split; [|split]]]].
  - exact (Set_wf fw dst fuel Hfw W).
  - intros src. exact (DecodeText_wf dst src W).
  - intros [s|]; [|reflexivity]. cbn [DecodeBinary].
    destruct (negb (length s =? 16)); [exact W|exact (setByteSlice_wf dst (Some s) W)].
  - intros src r H. unfold UnmarshalJSON in H.
    destruct (bytes.Compare src (Some (str "null")) =? 0)%Z.
    + exact (Set_wf fw dst fuel Hfw W VNil r I H).
    + destruct (negb (len src =? 38)); [injection H as <-; exact W|].
      exact (Set_wf fw dst fuel Hfw W (VString _) r I H).
  - intros [|a|s|s|p|id]; cbn [Scan fst]; try exact W.
    + reflexivity.
    + exact (DecodeText_wf dst _ W).
    + exact (DecodeText_wf dst _ W).
  - reflexivity.
Qed.

Lemma carriers_wf : wfFramework carriers.
Proof.
  split; intros id v H; [|discriminate H].
  destruct id as [|[|id]]; cbn in H; inversion H; [reflexivity|exact I].
Defined.

Lemma sixteen_bytes_kept_witness :
  match Set_ carriers 2 otherUUID (VObj 0) with
  | Some r => wf (fst r)
  | None => False
  end /\
  wf (fst (DecodeBinary otherUUID (Some [x01; x02]))) /\
  wf (fst (Scan (fun _ => str "T") otherUUID (VString upperText))).
Proof.
  destruct (sixteen_bytes_kept carriers (fun _ => str "T") 2 otherUUID carriers_wf eq_refl)
    as (Hset & _ & Hbin & _ & Hscan & _).
  split; [|split].
  - destruct (Set_ carriers 2 otherUUID (VObj 0)) as [r|] eqn:E; [|discriminate E].
    exact (Hset (VObj 0) r I E).
  - apply Hbin.
  - apply Hscan.
Defined.

(** *** Text accepted by [Set], refused on the wire *)

Lemma Itoa_32 (b : list byte) :
  length b = 16 -> strconv.Itoa (length (fmt.Sprintf_x b)) = str "32".
Proof. intros H. rewrite Sprintf_x_length, H. reflexivity. Qed.

(** X10.  The undashed 32-character form is accepted by [Set] on a
    string and refused by every wire and driver entry point:
    [DecodeText] and [Scan] fail on it with the length 32, and
    [UnmarshalJSON] on it between quotes fails with the length 34. *)
Theorem undashed_text_only_through_Set
        (fw : Framework) (typeOf : nat -> gostring) (fuel : nat) (dst : UUID)
        (b : list byte) :
  length b = 16 ->
  Set_ fw (S fuel) dst (VString (fmt.Sprintf_x b)) = Some (setByteArray dst b, None) /\
  DecodeText dst (Some (fmt.Sprintf_x b)) =
    (dst, Some (Errorf (str "invalid length for UUID: 32"))) /\
  Scan typeOf dst (VString (fmt.Sprintf_x b)) =
    (dst, Some (Errorf (str "invalid length for UUID: 32"))) /\
  UnmarshalJSON fw (S fuel) dst (Some (quote :: fmt.Sprintf_x b ++ [quote])) =
    Some (dst, Some (Errorf (str "invalid length for UUID: 34"))).
Proof.
  intros H.
  assert (length (fmt.Sprintf_x b) = 32) as H32.
  { rewrite Sprintf_x_length, H. reflexivity. }
  assert (DecodeText dst (Some (fmt.Sprintf_x b)) =
          (dst, Some (Errorf (str "invalid length for UUID: 32")))) as Hd.
  { rewrite DecodeText_other by (rewrite H32; discriminate).
    rewrite (Itoa_32 b H). reflexivity. }
  split; [|split; [|split]].
  - rewrite Set_string. unfold setString.
    assert (parseUUID (fmt.Sprintf_x b) = (b, None)) as ->; [|reflexivity].
    rewrite (parseUUID_32 _ H32). unfold hex.DecodeString. rewrite Decode_Sprintf_x.
    rewrite copy_same_length; [reflexivity|]. rewrite H. reflexivity.
  - exact Hd.
  - exact Hd.
  - assert (len (Some (quote :: fmt.Sprintf_x b ++ [quote])) = 34) as Hl.
    { cbn [len length]. rewrite length_app, H32. reflexivity. }
    rewrite UnmarshalJSON_other.
    + rewrite Hl. reflexivity.
    + intros E. apply (f_equal (@length byte)) in E.
      change (default [] (Some (quote :: fmt.Sprintf_x b ++ [quote])))
        with (quote :: fmt.Sprintf_x b ++ [quote]) in E.
      cbn [length] in E. rewrite length_app, H32 in E. discriminate E.
    + rewrite Hl. discriminate.
Qed.

Lemma undashed_text_only_through_Set_witness :
  Set_ bare 1 zeroUUID (VString (str "a0eebc999c0b4ef8bb6d6bb9bd380a11")) =
    Some (sampleUUID, None) /\
  DecodeText zeroUUID (Some (str "a0eebc999c0b4ef8bb6d6bb9bd380a11")) =
    (zeroUUID, Some (Errorf (str "invalid length for UUID: 32"))).
Proof.
  destruct (undashed_text_only_through_Set bare (fun _ => str "T") 0 zeroUUID
              sampleBytes eq_refl) as (Hset & Hdec & _).
  split; [exact Hset|exact Hdec].
Defined.

(** *** Extraction into pointers *)

Lemma copy_fresh16 (b : list byte) : length b = 16 -> copy (repeat x00 16) b = b.
Proof. intros H. apply copy_same_length. rewrite H. reflexivity. Qed.

(** What [AssignTo] does to the heap when no decoder capability is in
    play and the container is valid. *)
Lemma AssignTo_plain (fw : Framework) (src : UUID) (h : heap) (fuel : nat) :
  Valid src = true -> wf src -> (forall d, resolveDecoder fw src d = None) ->
  forall dst h' e,
    AssignTo fw fuel src dst h = Some (h', e) ->
    e = None /\
    (h' = h \/
     exists v, h' = <[v := CArray (Bytes src)]> h \/
               h' = <[v := CSlice (Some (Bytes src))]> h \/
               h' = <[v := CString (encodeUUID (Bytes src))]> h).
Proof.
  intros Hv W Hd.
  induction fuel as [|fuel IH]; intros dst h' e H; [discriminate H|].
  cbn [AssignTo] in H. rewrite (Hd dst), Hv in H. cbn [negb] in H.
  destruct dst as [v|v|v|id].
  - injection H as <- <-. split; [reflexivity|]. right. exists v. left. reflexivity.
  - rewrite (copy_fresh16 _ W) in H. injection H as <- <-.
    split; [reflexivity|]. right. exists v. right. left. reflexivity.
  - injection H as <- <-. split; [reflexivity|]. right. exists v. right. right. reflexivity.
  - destruct (GetAssignToDstType fw (DObj id)) as [nextDst|].
    + exact (IH nextDst h' e H).
    + injection H as <- <-. split; [reflexivity|]. left. reflexivity.
Qed.

(** X11.  With a valid container and no decoder capability in play
    (no destination is a decoder, no [UUIDDecoderWrapper] hook offers
    one), [AssignTo] never returns an error, whatever the destination and
    however many alternative destinations the framework goes through,
    and it writes at most one cell of the heap: the bytes as an array,
    the bytes as a fresh slice, or their canonical text. *)
Theorem AssignTo_valid_plain (fw : Framework) (fuel : nat) (src : UUID) (dst : dest)
        (h h' : heap) (e : option error) :
  Valid src = true -> wf src -> (forall d, resolveDecoder fw src d = None) ->
  AssignTo fw fuel src dst h = Some (h', e) ->
  e = None /\
  (h' = h \/
   exists v, h' = <[v := CArray (Bytes src)]> h \/
             h' = <[v := CSlice (Some (Bytes src))]> h \/
             h' = <[v := CString (encodeUUID (Bytes src))]> h).
Proof. intros Hv W Hd. exact (AssignTo_plain fw src h fuel Hv W Hd dst h' e). Qed.

Lemma carriers_no_decoder (src : UUID) :
  UUIDDecoderWrapper src = None -> forall d, resolveDecoder carriers src d = None.
Proof. intros Hw d. unfold resolveDecoder. rewrite Hw. destruct d; reflexivity. Qed.

Lemma AssignTo_valid_plain_witness :
  match AssignTo carriers 2 sampleUUID (DObj 5) ∅ with
  | Some (h', e) =>
      e = None /\
      (h' = ∅ \/
       exists v, h' = <[v := CArray sampleBytes]> ∅ \/
                 h' = <[v := CSlice (Some sampleBytes)]> ∅ \/
                 h' = <[v := CString (encodeUUID sampleBytes)]> ∅)
  | None => False
  end.
Proof.
  destruct (AssignTo carriers 2 sampleUUID (DObj 5) ∅) as [[h' e]|] eqn:H;
    [|discriminate H].
  exact (AssignTo_valid_plain carriers 2 sampleUUID (DObj 5) ∅ h' e eq_refl eq_refl
           (carriers_no_decoder sampleUUID eq_refl) H).
Defined.

(** X12.  Into a pointer to a 16-byte array or to a byte slice,
    [AssignTo] of a valid container with no decoder resolved stores the
    16 bytes (for the slice, a fresh non-nil slice of 16 bytes) at the
    pointer and leaves every other cell of the heap as it was. *)
Theorem AssignTo_byte_pointers (fw : Framework) (fuel : nat) (src : UUID) (v : nat)
        (h : heap) :
  Valid src = true -> wf src ->
  (resolveDecoder fw src (DArrayPtr v) = None ->
   exists h', AssignTo fw (S fuel) src (DArrayPtr v) h = Some (h', None) /\
              h' !! v = Some (CArray (Bytes src)) /\
              forall v', v' <> v -> h' !! v' = h !! v') /\
  (resolveDecoder fw src (DSlicePtr v) = None ->
   exists h', AssignTo fw (S fuel) src (DSlicePtr v) h = Some (h', None) /\
              h' !! v = Some (CSlice (Some (Bytes src))) /\
              forall v', v' <> v -> h' !! v' = h !! v').
Proof.
  intros Hv W. split; intros Hd; cbn [AssignTo]; rewrite Hd, Hv; cbn [negb];
    rewrite ?(copy_fresh16 _ W); eexists; (split; [reflexivity|]);
    (split; [apply lookup_insert_eq|]); intros v' Hne; apply lookup_insert_ne; congruence.
Qed.

Lemma AssignTo_byte_pointers_witness :
  exists h', AssignTo bare 1 sampleUUID (DSlicePtr 3) {[ 4 := CSlice None ]} = Some (h', None) /\
             h' !! 3 = Some (CSlice (Some sampleBytes)) /\
             h' !! 4 = Some (CSlice None).
Proof.
  destruct (proj2 (AssignTo_byte_pointers bare 0 sampleUUID 3 {[ 4 := CSlice None ]}
                     eq_refl eq_refl) eq_refl) as (h' & Ha & Hat & Hframe).
  exists h'. split; [exact Ha|]. split; [exact Hat|].
  rewrite (Hframe 4); [apply lookup_singleton_eq|discriminate].
Defined.

(** X13.  Extraction and ingestion are inverse to each other: what
    [AssignTo] stores through a pointer to an array, a slice or a string
    (valid container, no decoder resolved), given back to [Set], makes
    any well-formed container valid with the same bytes. *)
Theorem AssignTo_then_Set (fw : Framework) (fuel : nat) (src dst2 : UUID) (v : nat)
        (h : heap) (dst : dest) :
  Valid src = true -> wf src -> wf dst2 ->
  dst = DArrayPtr v \/ dst = DSlicePtr v \/ dst = DStringPtr v ->
  resolveDecoder fw src dst = None ->
  exists h' c back,
    AssignTo fw (S fuel) src dst h = Some (h', None) /\
    h' !! v = Some c /\
    back = match c with
           | CArray a => VArray16 a
           | CSlice s => VBytes s
           | CString s => VStringPtr (Some s)
           end /\
    Set_ fw (S fuel) dst2 back = Some (setByteArray dst2 (Bytes src), None).
Proof.
  intros Hv W W2 Hdst Hd.
  destruct Hdst as [E|[E|E]]; subst dst; cbn [AssignTo]; rewrite Hd, Hv; cbn [negb];
    do 3 eexists; (split; [reflexivity|]); (split; [apply lookup_insert_eq|]);
    (split; [reflexivity|]); cbn [Set_ callGet].
  - reflexivity.
  - rewrite (copy_fresh16 _ W), (setByteSlice_16 dst2 _ W2 W). reflexivity.
  - rewrite (setString_encodeUUID dst2 _ W). reflexivity.
Qed.

Lemma AssignTo_then_Set_witness :
  exists h' c back,
    AssignTo bare 1 sampleUUID (DStringPtr 0) ∅ = Some (h', None) /\
    h' !! 0 = Some c /\
    back = match c with
           | CArray a => VArray16 a
           | CSlice s => VBytes s
           | CString s => VStringPtr (Some s)
           end /\
    Set_ bare 1 otherUUID back = Some (setByteArray otherUUID (Bytes sampleUUID), None).
Proof.
  apply (AssignTo_then_Set bare 0 sampleUUID otherUUID 0 ∅ (DStringPtr 0));
    try reflexivity.
  right. right. reflexivity.
Defined.

(** *** Driver scan *)

Lemma Scan_bytes (typeOf : nat -> gostring) (dst : UUID) (s : list byte) :
  Scan typeOf dst (VBytes (Some s)) = DecodeText dst (Some s).
Proof.
  cbn [Scan len]. change (default [] (Some s)) with s.
  rewrite copy_same_length; [reflexivity|]. rewrite repeat_length. reflexivity.
Qed.

(** X14.  [Scan] reads back what the text encoder wrote: given the
    output of [EncodeText] of a valid container, as a string or as a
    byte sequence, it makes the container valid with the same bytes; a
    nil cell makes it invalid. *)
Theorem Scan_reads_EncodeText (typeOf : nat -> gostring) (dst v : UUID) :
  Valid v = true -> wf v ->
  exists text,
    EncodeText v None = (Some text, None) /\
    Scan typeOf dst (VString text) = (setByteArray dst (Bytes v), None) /\
    Scan typeOf dst (VBytes (Some text)) = (setByteArray dst (Bytes v), None) /\
    Scan typeOf dst VNil = (setNil dst, None).
Proof.
  intros Hv W. exists (encodeUUID (Bytes v)).
  split; [|split; [|split]].
  - unfold EncodeText. rewrite Hv. cbn [negb]. rewrite append_nonempty; [reflexivity|].
    intros E. apply (f_equal (@length byte)) in E.
    rewrite (encodeUUID_length _ W) in E. discriminate E.
  - exact (DecodeText_encodeUUID dst _ W).
  - rewrite Scan_bytes. exact (DecodeText_encodeUUID dst _ W).
  - reflexivity.
Qed.

Lemma Scan_reads_EncodeText_witness :
  exists text,
    EncodeText sampleUUID None = (Some text, None) /\
    Scan (fun _ => str "T") otherUUID (VString text) =
      (setByteArray otherUUID (Bytes sampleUUID), None) /\
    Scan (fun _ => str "T") otherUUID (VBytes (Some text)) =
      (setByteArray otherUUID (Bytes sampleUUID), None) /\
    Scan (fun _ => str "T") otherUUID VNil = (setNil otherUUID, None).
Proof.
  exact (Scan_reads_EncodeText (fun _ => str "T") otherUUID sampleUUID eq_refl eq_refl).
Defined.

(** X15.  [Scan] takes a byte sequence as text, never as the binary
    form, and only a nil interface as null: a nil byte slice fails with
    the length 0, any string or byte sequence whose length is not 36 (so
    the 16 raw bytes too) fails with its length, and a value of any other
    type fails with ["cannot scan "] and its type.  Every error leaves
    the container as it was. *)
Theorem Scan_refusals (typeOf : nat -> gostring) (dst : UUID) :
  Scan typeOf dst (VBytes None) =
    (dst, Some (Errorf (str "invalid length for UUID: 0"))) /\
  (forall s, length s <> 36 ->
     Scan typeOf dst (VBytes (Some s)) =
       (dst, Some (Errorf (str "invalid length for UUID: " ++ strconv.Itoa (length s)))) /\
     Scan typeOf dst (VString s) =
       (dst, Some (Errorf (str "invalid length for UUID: " ++ strconv.Itoa (length s))))) /\
  (forall src, (exists a, src = VArray16 a) \/ (exists p, src = VStringPtr p) \/
               (exists id, src = VObj id) ->
     Scan typeOf dst src = (dst, Some (Errorf (str "cannot scan " ++ Sprint_T typeOf src)))) /\
  (forall src dst' e, Scan typeOf dst src = (dst', Some e) -> dst' = dst).
Proof.
  split; [|split; [|split]].
  - reflexivity.
  - intros s H. rewrite Scan_bytes. split; exact (DecodeText_other dst s H).
  - intros src [[a ->]|[[p ->]|[id ->]]]; reflexivity.
  - intros [|a|s|s|p|id] dst' e H; cbn [Scan] in H; try congruence.
    + exact (DecodeText_error dst dst' _ e H).
    + exact (DecodeText_error dst dst' _ e H).
Qed.

Lemma Scan_refusals_witness :
  Scan (fun _ => str "T") sampleUUID (VBytes (Some otherBytes)) =
    (sampleUUID, Some (Errorf (str "invalid length for UUID: 16"))) /\
  Scan (fun _ => str "T") sampleUUID (VArray16 otherBytes) =
    (sampleUUID, Some (Errorf (str "cannot scan [16]uint8"))).
Proof.
  destruct (Scan_refusals (fun _ => str "T") sampleUUID) as (_ & Hlen & Hty & _).
  split.
  - apply (Hlen otherBytes). discriminate.
  - apply (Hty (VArray16 otherBytes)). left. exists otherBytes. reflexivity.
Defined.

(** *** JSON and batched encoding *)

(** X16.  JSON round trip.  [MarshalJSON] never fails and returns
    exactly the JSON literal of the container: for a valid one 38 bytes,
    the canonical text between two double quotes; for an invalid one the
    4 bytes [null].  [UnmarshalJSON] of that output gives a container
    with the same validity and, when valid, the same bytes. *)
Theorem JSON_roundtrip (fw : Framework) (fuel : nat) (dst v : UUID) :
  wf v ->
  MarshalJSON v = (Some (spec_json v), None) /\
  length (spec_json v) = (if Valid v then 38 else 4) /\
  UnmarshalJSON fw (S fuel) dst (Some (spec_json v)) =
    Some (if Valid v then setByteArray dst (Bytes v) else setNil dst, None).
Proof.
  intros W. unfold MarshalJSON, spec_json.
  rewrite <- (encodeUUID_spec_format _ W).
  destruct (Valid v); cbn [negb].
  - split; [reflexivity|]. split.
    + cbn [length]. rewrite length_app, (encodeUUID_length _ W). reflexivity.
    + rewrite (UnmarshalJSON_38 fw _ dst x22 x22 _ (encodeUUID_length _ W)).
      rewrite Set_string, (setString_encodeUUID dst _ W). reflexivity.
  - repeat split.
Qed.

Lemma JSON_roundtrip_witness :
  MarshalJSON sampleUUID = (Some (x22 :: sampleText ++ [x22]), None) /\
  length (x22 :: sampleText ++ [x22]) = 38 /\
  UnmarshalJSON bare 1 otherUUID (Some (x22 :: sampleText ++ [x22])) =
    Some (sampleUUID, None).
Proof.
  exact (JSON_roundtrip bare 0 otherUUID sampleUUID eq_refl).
Defined.

Lemma slice_app_middle {A : Type} (pre mid post : list A) :
  slice (length pre) (length pre + length mid) (pre ++ mid ++ post) = mid.
Proof.
  unfold slice. rewrite skipn_app, skipn_all, Nat.sub_diag.
  change ([] ++ skipn 0 (mid ++ post)) with (mid ++ post).
  replace (length pre + length mid - length pre) with (length mid) by lia.
  rewrite firstn_app, firstn_all, Nat.sub_diag. cbn [firstn]. apply app_nil_r.
Qed.

(** X17.  The encoders batch: encoding one valid container after
    another into the same buffer keeps the buffer's content and lays the
    values side by side, 36 bytes each in text form and 16 each in
    binary form, so that the slice of each value decodes to it. *)
Theorem encoders_batch (v1 v2 dst : UUID) (buf : byteslice) :
  Valid v1 = true -> wf v1 -> Valid v2 = true -> wf v2 ->
  let n := len buf in
  (exists out,
     EncodeText v2 (fst (EncodeText v1 buf)) = (Some out, None) /\
     firstn n out = default [] buf /\ length out = n + 72 /\
     DecodeText dst (Some (slice n (n + 36) out)) = (setByteArray dst (Bytes v1), None) /\
     DecodeText dst (Some (slice (n + 36) (n + 72) out)) =
       (setByteArray dst (Bytes v2), None)) /\
  (exists out,
     EncodeBinary v2 (fst (EncodeBinary v1 buf)) = (Some out, None) /\
     firstn n out = default [] buf /\ length out = n + 32 /\
     slice n (n + 16) out = Bytes v1 /\ slice (n + 16) (n + 32) out = Bytes v2).
Proof.
  intros V1 W1 V2 W2 n.
  pose proof (encodeUUID_length _ W1) as L1. pose proof (encodeUUID_length _ W2) as L2.
  assert (n = length (default [] buf)) as Hn by (destruct buf; reflexivity).
  assert (forall t : list byte, length t = 36 \/ length t = 16 -> t <> []) as Hne.
  { intros t Ht E. subst t. cbn in Ht. lia. }
  split.
  - exists (default [] buf ++ encodeUUID (Bytes v1) ++ encodeUUID (Bytes v2)).
    unfold EncodeText. rewrite V1, V2. cbn [negb fst].
    rewrite (append_nonempty buf) by (apply Hne; auto).
    rewrite append_nonempty by (apply Hne; auto).
    change (default [] (Some ?x)) with x.
    split; [rewrite <- app_assoc; reflexivity|].
    split; [rewrite Hn, firstn_app, firstn_all, Nat.sub_diag; apply app_nil_r|].
    split; [rewrite !length_app; lia|]. split.
    + rewrite Hn, <- L1, slice_app_middle. exact (DecodeText_encodeUUID dst _ W1).
    + rewrite app_assoc.
      replace (n + 36) with (length (default [] buf ++ encodeUUID (Bytes v1)))
        by (rewrite length_app; lia).
      replace (n + 72)
        with (length (default [] buf ++ encodeUUID (Bytes v1)) + length (encodeUUID (Bytes v2)))
        by (rewrite length_app; lia).
      rewrite <- (app_nil_r (encodeUUID (Bytes v2))) at 2.
      rewrite slice_app_middle. exact (DecodeText_encodeUUID dst _ W2).
  - exists (default [] buf ++ Bytes v1 ++ Bytes v2).
    unfold EncodeBinary. rewrite V1, V2. cbn [negb fst].
    rewrite (append_nonempty buf) by (apply Hne; auto).
    rewrite append_nonempty by (apply Hne; auto).
    change (default [] (Some ?x)) with x.
    split; [rewrite <- app_assoc; reflexivity|].
    split; [rewrite Hn, firstn_app, firstn_all, Nat.sub_diag; apply app_nil_r|].
    unfold wf in W1, W2.
    split; [rewrite !length_app; lia|]. split.
    + rewrite Hn, <- W1, slice_app_middle. reflexivity.
    + rewrite app_assoc.
      replace (n + 16) with (length (default [] buf ++ Bytes v1))
        by (rewrite length_app; lia).
      replace (n + 32) with (length (default [] buf ++ Bytes v1) + length (Bytes v2))
        by (rewrite length_app; lia).
      rewrite <- (app_nil_r (Bytes v2)) at 2.
      rewrite slice_app_middle. reflexivity.
Qed.

Lemma encoders_batch_witness :
  exists out,
    EncodeBinary otherUUID (fst (EncodeBinary sampleUUID (Some [xff]))) = (Some out, None) /\
    firstn 1 out = [xff] /\ length out = 33 /\
    slice 1 17 out = sampleBytes /\ slice 17 33 out = otherBytes.
Proof.
  exact (proj2 (encoders_batch sampleUUID otherUUID zeroUUID (Some [xff])
                  eq_refl eq_refl eq_refl eq_refl)).
Defined.
